(** * Check-run reconciliation of [src/github.ts]

    A shallow embedding of the [GitHub] class: the job-state tables
    ([getStatus], [getConclusion]), the identity test [isCheckForJob], the
    diff [checksToCreate], the payload builders and the two operations that
    talk to the remote service ([createCheck], [getLatestTravisStatus]).

    Strings are [String.string]; JavaScript numbers that are identifiers are
    [Z]; a value that may be [undefined] is an [option].  Asynchronous code is
    sequential here (every call is awaited), so it is written in a small
    monad [M] that carries the outcome (a value or a thrown error) and the
    trace of observable events (log lines and remote calls). *)

From Stdlib Require Import ZArith Ascii DecimalString.
From stdpp Require Import base list strings.

(** ** Data model *)

(** [BuildInfo] and [JobInfo] are declared in [./ci]; the fields are the ones
    [github.ts] reads.  [id] and [jobId] are compared with [===] against
    pieces of a split string, so they are strings. *)
Record BuildInfo := mkBuildInfo {
  id : string;
  domain : string;
  owner : string;
  repo : string;
  headSha : string
}.

Record JobInfo := mkJobInfo {
  jobId : string;
  name : string;
  url : string;
  state : string;
  startedAt : string;
  finishedAt : string;
  ignoreFailure : bool
}.

(** What [getJobOutput] yields and [payload.output] holds. *)
Record JobOutput := mkJobOutput {
  title : string;
  summary : string;
  text : option string
}.

(** [Octokit.ListForRefResponseCheckRunsItem], restricted to the fields the
    code reads plus [conclusion], which it never reads.  [external_id] may be
    absent. *)
Record CheckRun := mkCheckRun {
  external_id : option string;
  cr_status : string;
  cr_name : string;
  cr_conclusion : option string;
  app_id : Z
}.

(** [Octokit.ChecksCreateParams]: the last three fields are only set by
    [addCompletionInfo]. *)
Record ChecksCreateParams := mkParams {
  p_details_url : string;
  p_external_id : string;
  p_head_sha : string;
  p_name : string;
  p_owner : string;
  p_repo : string;
  p_started_at : string;
  p_status : string;
  p_conclusion : option string;
  p_completed_at : option string;
  p_output : option JobOutput
}.

(** ** Job-state tables *)

Definition FINISHED_STATES : list string :=
  ["passed"; "failed"; "errored"; "canceled"].

(** [Array.prototype.includes] on strings. *)
Fixpoint includes (l : list string) (x : string) : bool :=
  match l with
  | [] => false
  | y :: l' => if String.eqb y x then true else includes l' x
  end.

Definition getStatus (jobInfo : JobInfo) : string :=
  if includes FINISHED_STATES (state jobInfo) then "completed"
  else if String.eqb (state jobInfo) "started" then "in_progress"
  else "queued".

Definition getConclusion (jobInfo : JobInfo) : string :=
  if String.eqb (state jobInfo) "passed" then "success"
  else if String.eqb (state jobInfo) "failed" && negb (ignoreFailure jobInfo)
  then "failure"
  else if String.eqb (state jobInfo) "canceled" then "cancelled"
  else "neutral".

(** ** The identity carried by [external_id] *)

(** [s.split('/')] for a one-character separator: the pieces between the
    separators, so a string with [n] separators gives [n + 1] pieces. *)
Fixpoint split_aux (sep : Ascii.ascii) (s : string) (cur : string) : list string :=
  match s with
  | EmptyString => [cur]
  | String c s' =>
      if Ascii.eqb c sep then cur :: split_aux sep s' ""
      else split_aux sep s' (cur +:+ String c "")
  end.

Definition split (sep : Ascii.ascii) (s : string) : list string :=
  split_aux sep s "".

Definition slash : Ascii.ascii := "/"%char.

(** [x === piece] where [piece] comes from array destructuring: a missing
    position is [undefined], which is never [===] to a string. *)
Definition eq_piece (x : string) (piece : option string) : bool :=
  match piece with
  | Some y => String.eqb x y
  | None => false
  end.

(** [!c.external_id]: absent or the empty string. *)
Definition falsy (s : option string) : bool :=
  match s with
  | None => true
  | Some s' => String.eqb s' ""
  end.

Section Instance.

(** The fields of one [GitHub] instance that the pure methods read. *)
Variable buildInfo : BuildInfo.

Definition isCheckForJob (c : CheckRun) (j : JobInfo) : bool :=
  if falsy (external_id c) then false
  else
    let parts := split slash (default "" (external_id c)) in
    eq_piece (domain buildInfo) (parts !! 0%nat)
    && eq_piece (id buildInfo) (parts !! 1%nat)
    && eq_piece (jobId j) (parts !! 2%nat).

Definition getChecksCreateParams (jobInfo : JobInfo) : ChecksCreateParams :=
  {| p_details_url := url jobInfo;
     p_external_id :=
       domain buildInfo +:+ "/" +:+ id buildInfo +:+ "/" +:+ jobId jobInfo;
     p_head_sha := headSha buildInfo;
     p_name := name jobInfo;
     p_owner := owner buildInfo;
     p_repo := repo buildInfo;
     p_started_at := startedAt jobInfo;
     p_status := getStatus jobInfo;
     p_conclusion := None;
     p_completed_at := None;
     p_output := None |}.

(** The test of the loop body of [checksToCreate]: [existing] is what
    [find] returned. *)
Definition needsCreate (existing : option CheckRun) (current : JobInfo) : bool :=
  match existing with
  | None => true
  | Some e =>
      negb (String.eqb (getStatus current) (cr_status e))
      || negb (String.eqb (name current) (cr_name e))
  end.

(** The [for ... of] loop of [checksToCreate]; [create] is the array being
    pushed to. *)
Fixpoint checksToCreate_loop (existingChecks : list CheckRun)
    (newJobs : list JobInfo) (create : list JobInfo) : list JobInfo :=
  match newJobs with
  | [] => create
  | current :: rest =>
      let existing :=
        List.find (fun c => isCheckForJob c current) existingChecks in
      if needsCreate existing current
      then checksToCreate_loop existingChecks rest (create ++ [current])
      else checksToCreate_loop existingChecks rest create
  end.

End Instance.

(** ** Effects: outcomes and traces *)

Definition Error := string.

(** What an awaited call yields: a value, or a thrown error. *)
Inductive Outcome (A : Type) : Type :=
  | Returned (a : A)
  | Thrown (e : Error).
Arguments Returned {A} a.
Arguments Thrown {A} e.

(** What the outside can observe of a run: the lines handed to the logger and
    the calls made to the remote service and to the injected callback. *)
Inductive Event : Type :=
  | LogDebug (msg : string) (data : option ChecksCreateParams)
  | LogError (e : Error) (msg : string)
  | PullRequestsGet (number : Z) (owner_ repo_ : string)
  | ReposGetStatuses (owner_ : string) (per_page : Z) (ref repo_ : string)
  | ChecksListForRef (owner_ : string) (per_page : Z) (ref repo_ : string)
  | GetNextPage
  | ChecksCreate (payload : ChecksCreateParams)
  | GetJobOutput (j : JobInfo).

(** A computation: its outcome and the events it produced, oldest first. *)
Definition M (A : Type) : Type := (Outcome A * list Event)%type.

Definition ret {A} (a : A) : M A := (Returned a, []).

Definition bind {A B} (m : M A) (f : A -> M B) : M B :=
  match m with
  | (Returned a, t) => let (r, t') := f a in (r, t ++ t')
  | (Thrown e, t) => (Thrown e, t)
  end.

(** [try { m } catch (e) { h e }]. *)
Definition try_catch {A} (m : M A) (h : Error -> M A) : M A :=
  match m with
  | (Returned a, t) => (Returned a, t)
  | (Thrown e, t) => let (r, t') := h e in (r, t ++ t')
  end.

(** The logger never throws. *)
Definition emit (ev : Event) : M unit := (Returned tt, [ev]).

(** An awaited call to a collaborator: the call is recorded and its answer
    (or its error) is passed on. *)
Definition call {A} (ev : Event) (answer : Outcome A) : M A := (answer, [ev]).

Definition outcome {A} (m : M A) : Outcome A := fst m.
Definition trace {A} (m : M A) : list Event := snd m.

Notation "'let!' x ':=' c1 'in' c2" := (bind c1 (fun x => c2))
  (at level 10, x pattern, c1 at level 100, c2 at level 200).
Notation "c1 ;> c2" := (bind c1 (fun _ => c2))
  (at level 100, c2 at level 200, right associativity).

(** [n.toString()], and [n] inside a template literal, for a number that
    holds an integer: its decimal digits.  JavaScript numbers are doubles,
    so this is what the source prints only for the integers a double holds
    exactly and prints in full, those of magnitude below [2 ^ 53]
    ([safe_integer]); beyond, the source prints rounded digits or exponent
    notation.  Statements that show the output of [toString] assume
    [safe_integer] of its argument. *)
Definition toString (n : Z) : string := NilZero.string_of_int (Z.to_int n).

(** [Number.isSafeInteger] on integers. *)
Definition safe_integer (n : Z) : Prop := (Z.abs n < 2 ^ 53)%Z.

(** ** The remote service *)

Record Repository := mkRepository {
  owner_login : string;
  repo_name : string;
  full_name : string
}.

(** The parts of the [IssueComment] webhook payload that are read. *)
Record IssueComment := mkIssueComment {
  repository : Repository;
  issue_number : Z;
  comment_id : Z
}.

Record PullRequestHead := mkHead { sha : string }.
Record PullRequest := mkPullRequest { head : option PullRequestHead }.

(** [Octokit.GetStatusesResponseItem]. *)
Record Status := mkStatus {
  context : string;
  target_url : string
}.

Record StatusInfo := mkStatusInfo {
  si_repository : Repository;
  si_sha : string;
  si_target_url : string
}.

(** A paged listing as the remote serves it: the answer to the first request
    and the answers that following the next-page links would give, each of
    which may be an error. *)
Record Paged (A : Type) := mkPaged {
  first_page : Outcome A;
  next_pages : list (Outcome A)
}.
Arguments mkPaged {A} _ _.
Arguments first_page {A} _.
Arguments next_pages {A} _.

(** [GitHubAPI]: the client methods used, as the answers the remote gives to
    each request. *)
Record GitHubAPI := mkGitHubAPI {
  pullRequests_get : Z -> string -> string -> Outcome PullRequest;
  repos_getStatuses : string -> Z -> string -> string -> Paged (list Status);
  checks_listForRef : string -> Z -> string -> string -> Paged (list CheckRun);
  checks_create : ChecksCreateParams -> Outcome Z
}.

(** Modelled from the spec: the pagination helper of the API client
    ([client.paginate]), which is not part of this repository.  It awaits the
    first response, hands each response to the callback together with a
    [done] function, concatenates what the callback returns, and requests the
    next page only while [done] has not been called and a next page exists.
    The callback is a closure: [s] is the state it captures, and it yields
    the items it returns, the new captured state and whether it called
    [done]. *)
Fixpoint paginate_next {A B S} (pages : list (Outcome A))
    (callback : A -> S -> list B * S * bool)
    (collection : list B) (s : S) : M (list B * S) :=
  match pages with
  | [] => ret (collection, s)
  | page :: rest =>
      let! response := call GetNextPage page in
      let '(items, s', done) := callback response s in
      if (done : bool) then ret (collection ++ items, s')
      else paginate_next rest callback (collection ++ items) s'
  end.

Definition paginate {A B S} (request : Event) (pages : Paged A)
    (callback : A -> S -> list B * S * bool) (s : S) : M (list B * S) :=
  let! response := call request (first_page pages) in
  let '(items, s', done) := callback response s in
  if (done : bool) then ret (items, s')
  else paginate_next (next_pages pages) callback items s'.

(** ** [getLatestTravisStatus] *)

Definition travis_context : string := "continuous-integration/travis-ci/pr".

(** The [for ... of] loop of the page callback: the first status of the page
    with the Travis context, at which the loop breaks. *)
Fixpoint scan_page (data : list Status) : option Status :=
  match data with
  | [] => None
  | status :: rest =>
      if String.eqb (context status) travis_context then Some status
      else scan_page rest
  end.

(** The page callback.  It captures [travisStatus], returns nothing, and calls
    [done] exactly when it assigns. *)
Definition travis_callback (res : list Status) (travisStatus : option Status)
    : list unit * option Status * bool :=
  match scan_page res with
  | Some status => ([], Some status, true)
  | None => ([], travisStatus, false)
  end.

Definition getLatestTravisStatus (github : GitHubAPI) (issueComment : IssueComment)
    : M (option StatusInfo) :=
  let repo := repository issueComment in
  try_catch
    (let! pr :=
       call (PullRequestsGet (issue_number issueComment) (owner_login repo) (repo_name repo))
            (pullRequests_get github (issue_number issueComment)
               (owner_login repo) (repo_name repo)) in
     match head pr with
     | None => ret None
     | Some pr_head =>
         let! found :=
           paginate
             (ReposGetStatuses (owner_login repo) 100 (sha pr_head) (repo_name repo))
             (repos_getStatuses github (owner_login repo) 100 (sha pr_head)
                (repo_name repo))
             travis_callback None in
         match snd found with
         | None => ret None
         | Some travisStatus =>
             ret (Some {| si_repository := repo;
                          si_sha := sha pr_head;
                          si_target_url := target_url travisStatus |})
         end
     end)
    (fun e =>
       emit (LogError e
               ("Error occurred fetching latest Travis status for PR "
                +:+ toString (issue_number issueComment) +:+ " in "
                +:+ full_name repo)) ;>
       ret None).

(** ** The [GitHub] instance *)

Record GitHub := mkGitHub {
  appId : Z;
  buildInfo : BuildInfo;
  client : GitHubAPI;
  getJobOutput : JobInfo -> Outcome (option JobOutput)
}.

Definition getExistingChecks (this : GitHub) : M (list CheckRun) :=
  emit (LogDebug ("Fetching existing checks for build " +:+ id (buildInfo this)) None) ;>
  try_catch
    (let! fetched :=
       paginate
         (ChecksListForRef (owner (buildInfo this)) 100 (headSha (buildInfo this))
            (repo (buildInfo this)))
         (checks_listForRef (client this) (owner (buildInfo this)) 100
            (headSha (buildInfo this)) (repo (buildInfo this)))
         (fun res (_ : unit) =>
            (List.filter (fun c => Z.eqb (app_id c) (appId this)) res, tt, false))
         tt in
     let myChecks := fst fetched in
     emit (LogDebug ("Fetched " +:+ toString (Z.of_nat (length myChecks))
                     +:+ " existing checks for build " +:+ id (buildInfo this)) None) ;>
     ret myChecks)
    (fun e =>
       emit (LogError e ("Error occurred fetching existing checks for build "
                         +:+ id (buildInfo this))) ;>
       ret []).

Definition checksToCreate (this : GitHub) (newJobs : list JobInfo)
    : M (list JobInfo) :=
  let! existingChecks := getExistingChecks this in
  ret (checksToCreate_loop (buildInfo this) existingChecks newJobs []).

Definition set_completion (payload : ChecksCreateParams)
    (conclusion completed_at : string) : ChecksCreateParams :=
  {| p_details_url := p_details_url payload;
     p_external_id := p_external_id payload;
     p_head_sha := p_head_sha payload;
     p_name := p_name payload;
     p_owner := p_owner payload;
     p_repo := p_repo payload;
     p_started_at := p_started_at payload;
     p_status := p_status payload;
     p_conclusion := Some conclusion;
     p_completed_at := Some completed_at;
     p_output := p_output payload |}.

Definition set_output (payload : ChecksCreateParams) (output : JobOutput)
    : ChecksCreateParams :=
  {| p_details_url := p_details_url payload;
     p_external_id := p_external_id payload;
     p_head_sha := p_head_sha payload;
     p_name := p_name payload;
     p_owner := p_owner payload;
     p_repo := p_repo payload;
     p_started_at := p_started_at payload;
     p_status := p_status payload;
     p_conclusion := p_conclusion payload;
     p_completed_at := p_completed_at payload;
     p_output := Some output |}.

(** The payload object is mutated in place by the source; here the updated
    payload is returned. *)
Definition addCompletionInfo (this : GitHub) (payload : ChecksCreateParams)
    (jobInfo : JobInfo) : M ChecksCreateParams :=
  let payload := set_completion payload (getConclusion jobInfo) (finishedAt jobInfo) in
  if String.eqb (default "" (p_conclusion payload)) "cancelled" then ret payload
  else
    try_catch
      (let! output := call (GetJobOutput jobInfo) (getJobOutput this jobInfo) in
       match output with
       | Some o => ret (set_output payload o)
       | None => ret payload
       end)
      (fun e =>
         emit (LogError e ("Error occurred while getting job output for job "
                           +:+ jobId jobInfo +:+ ", output will be skipped")) ;>
         ret payload).

Definition createCheck (this : GitHub) (jobInfo : JobInfo) : M (option string) :=
  let payload := getChecksCreateParams (buildInfo this) jobInfo in
  let! payload :=
    (if String.eqb (p_status payload) "completed"
     then addCompletionInfo this payload jobInfo
     else ret payload) in
  emit (LogDebug ("Creating check for job " +:+ jobId jobInfo) (Some payload)) ;>
  try_catch
    (let! result := call (ChecksCreate payload) (checks_create (client this) payload) in
     let checkRunId := toString result in
     emit (LogDebug ("Check " +:+ checkRunId +:+ " created for job "
                     +:+ jobId jobInfo) None) ;>
     ret (Some checkRunId))
    (fun e =>
       emit (LogError e ("Error occurred creating check for job " +:+ jobId jobInfo)) ;>
       ret None).

(** ** Notions used to state the properties *)

(** [c] occurs in [s]. *)
Fixpoint occurs (c : Ascii.ascii) (s : string) : bool :=
  match s with
  | EmptyString => false
  | String c' s' => Ascii.eqb c' c || occurs c s'
  end.

(** [pieces.join(sep)]. *)
Fixpoint join (sep : Ascii.ascii) (pieces : list string) : string :=
  match pieces with
  | [] => ""
  | [p] => p
  | p :: rest => p +:+ String sep (join sep rest)
  end.

(** The identity decoded from [external_id]: the first three pieces of the
    split are the build's domain, the build's id and the job's id. *)
Definition is_for (bi : BuildInfo) (c : CheckRun) (j : JobInfo) : Prop :=
  ∃ s rest, external_id c = Some s
            ∧ split slash s = domain bi :: id bi :: jobId j :: rest.

(** [c] is the matching check run that [find] meets first: it is for [j], and
    nothing before it in the fetched collection is. *)
Definition first_match (bi : BuildInfo) (existing : list CheckRun)
    (j : JobInfo) (c : CheckRun) : Prop :=
  ∃ pre post, existing = pre ++ c :: post
              ∧ is_for bi c j
              ∧ ∀ c', c' ∈ pre → ¬ is_for bi c' j.

(** The payloads handed to [checks.create] during a run, in order. *)
Fixpoint sent_payloads (t : list Event) : list ChecksCreateParams :=
  match t with
  | [] => []
  | ChecksCreate payload :: t' => payload :: sent_payloads t'
  | _ :: t' => sent_payloads t'
  end.

(** The jobs for which [getJobOutput] was invoked during a run, in order. *)
Fixpoint output_fetches (t : list Event) : list JobInfo :=
  match t with
  | [] => []
  | GetJobOutput j :: t' => j :: output_fetches t'
  | _ :: t' => output_fetches t'
  end.

(** A status carries the Travis context. *)
Definition is_travis (st : Status) : Prop := context st = travis_context.

(** The answers of a paged listing, first page first. *)
Definition answers {A} (pages : Paged A) : list (Outcome A) :=
  first_page pages :: next_pages pages.

(** No status of any page that the remote serves has the Travis context. *)
Definition no_travis_status (pages : Paged (list Status)) : Prop :=
  ∀ page st, Returned page ∈ answers pages → st ∈ page → ¬ is_travis st.

(** A request for a page fails before any Travis status has been seen: the
    pages before it were served and hold no Travis status. *)
Definition page_fetch_throws (pages : Paged (list Status)) : Prop :=
  ∃ served e later,
    answers pages = map Returned served ++ Thrown e :: later
    ∧ ∀ page st, page ∈ served → st ∈ page → ¬ is_travis st.

(** [st] is the first Travis status that paging meets: every earlier page was
    served without one, and nothing before [st] in its page is one. *)
Definition first_travis_status (pages : Paged (list Status)) (st : Status) : Prop :=
  ∃ served before after later,
    answers pages = map Returned served ++ Returned (before ++ st :: after) :: later
    ∧ is_travis st
    ∧ (∀ page st', page ∈ served → st' ∈ page → ¬ is_travis st')
    ∧ ∀ st', st' ∈ before → ¬ is_travis st'.

(** Some request for a page of the listing fails. *)
Definition listing_throws {A} (pages : Paged A) : Prop :=
  ∃ e, Thrown e ∈ answers pages.

(** The listing of check runs that [getExistingChecks] pages through. *)
Definition check_listing (this : GitHub) : Paged (list CheckRun) :=
  checks_listForRef (client this) (owner (buildInfo this)) 100
    (headSha (buildInfo this)) (repo (buildInfo this)).

(** The check runs of a page that were created by this application. *)
Definition own_checks (this : GitHub) (page : list CheckRun) : list CheckRun :=
  List.filter (fun c => Z.eqb (app_id c) (appId this)) page.

(** A page callback that returns [f res] and never calls [done], as the one
    of [getExistingChecks]. *)
Definition collecting {A B} (f : A → list B) : A → unit → list B * unit * bool :=
  fun res _ => (f res, tt, false).

(** The first half of [createCheck]: the base payload, completed when the
    derived status is ['completed']. *)
Definition prepared_payload (this : GitHub) (jobInfo : JobInfo)
    : M ChecksCreateParams :=
  if String.eqb (getStatus jobInfo) "completed"
  then addCompletionInfo this (getChecksCreateParams (buildInfo this) jobInfo) jobInfo
  else ret (getChecksCreateParams (buildInfo this) jobInfo).

(** The pull request that [getLatestTravisStatus] asks for, and the listing
    of statuses of its head commit. *)
Definition fetched_pr (github : GitHubAPI) (issueComment : IssueComment)
    : Outcome PullRequest :=
  pullRequests_get github (issue_number issueComment)
    (owner_login (repository issueComment)) (repo_name (repository issueComment)).

Definition status_listing (github : GitHubAPI) (issueComment : IssueComment)
    (pr_head : PullRequestHead) : Paged (list Status) :=
  repos_getStatuses github (owner_login (repository issueComment)) 100
    (sha pr_head) (repo_name (repository issueComment)).

Definition outcome_map {A B} (f : A → B) (o : Outcome A) : Outcome B :=
  match o with
  | Returned a => Returned (f a)
  | Thrown e => Thrown e
  end.

(** What paging with the Travis callback finds in a run of answers: the first
    Travis status of the first page that has one, unless a request fails
    before. *)
Fixpoint scan_answers (l : list (Outcome (list Status))) : Outcome (option Status) :=
  match l with
  | [] => Returned None
  | Thrown e :: _ => Thrown e
  | Returned page :: rest =>
      match scan_page page with
      | Some st => Returned (Some st)
      | None => scan_answers rest
      end
  end.

(** ** A small world on which the statements are exercised *)

Definition build42 : BuildInfo :=
  {| id := "42"; domain := "ci"; owner := "o"; repo := "r"; headSha := "abc" |}.

Definition job7 (st : string) : JobInfo :=
  {| jobId := "7"; name := "build"; url := "https://ci/42/7"; state := st;
     startedAt := "t0"; finishedAt := "t1"; ignoreFailure := false |}.

Definition check7 (status : string) (conclusion : option string) : CheckRun :=
  {| external_id := Some "ci/42/7"; cr_status := status; cr_name := "build";
     cr_conclusion := conclusion; app_id := 5 |}.

Definition repo_o_r : Repository :=
  {| owner_login := "o"; repo_name := "r"; full_name := "o/r" |}.

Definition comment12 : IssueComment :=
  {| repository := repo_o_r; issue_number := 12; comment_id := 3 |}.

(** A remote that serves the given pull request, statuses and check runs and
    answers every create call with the given outcome. *)
Definition remote (pr : Outcome PullRequest) (statuses : Paged (list Status))
    (checks : Paged (list CheckRun)) (created : Outcome Z) : GitHubAPI :=
  {| pullRequests_get := fun _ _ _ => pr;
     repos_getStatuses := fun _ _ _ _ => statuses;
     checks_listForRef := fun _ _ _ _ => checks;
     checks_create := fun _ => created |}.

Definition instance5 (checks : Paged (list CheckRun)) (created : Outcome Z)
    (output : Outcome (option JobOutput)) : GitHub :=
  {| appId := 5; buildInfo := build42;
     client := remote (Thrown "unused") (mkPaged (Thrown "unused") []) checks created;
     getJobOutput := fun _ => output |}.

(** ** [deleteComment] *)

(** The static [deleteComment] uses a client method of its own,
    [issues.deleteComment]; a run of it shows these events. *)
Inductive CommentEvent : Type :=
  | IssuesDeleteComment (comment_id_ owner_ repo_ : string)
  | CommentLogError (e : Error) (msg : string).

Definition CM (A : Type) : Type := (Outcome A * list CommentEvent)%type.

Definition cm_call {A} (ev : CommentEvent) (answer : Outcome A) : CM A :=
  (answer, [ev]).

Definition cm_bind {A B} (m : CM A) (f : A -> CM B) : CM B :=
  match m with
  | (Returned a, t) => let (r, t') := f a in (r, t ++ t')
  | (Thrown e, t) => (Thrown e, t)
  end.

Definition cm_try_catch {A} (m : CM A) (h : Error -> CM A) : CM A :=
  match m with
  | (Returned a, t) => (Returned a, t)
  | (Thrown e, t) => let (r, t') := h e in (r, t ++ t')
  end.

Definition cm_log_error (e : Error) (msg : string) : CM unit :=
  (Returned tt, [CommentLogError e msg]).

(** [issues_deleteComment] is the answer of the remote to a delete request
    for the comment id, owner and repository name given. *)
Definition deleteComment
    (issues_deleteComment : string -> string -> string -> Outcome unit)
    (issueComment : IssueComment) : CM unit :=
  let repo := repository issueComment in
  cm_try_catch
    (cm_bind
       (cm_call
          (IssuesDeleteComment (toString (comment_id issueComment))
             (owner_login repo) (repo_name repo))
          (issues_deleteComment (toString (comment_id issueComment))
             (owner_login repo) (repo_name repo)))
       (fun _ => (Returned tt, [])))
    (fun e =>
       cm_log_error e
         ("Error occurred deleting rescan comment for PR "
          +:+ toString (issue_number issueComment) +:+ " in "
          +:+ full_name repo)).

(** ** Further notions on strings and traces *)

(** How often [sep] occurs in [s]. *)
Fixpoint count_sep (sep : Ascii.ascii) (s : string) : nat :=
  match s with
  | EmptyString => 0
  | String c s' => (if Ascii.eqb c sep then 1 else 0) + count_sep sep s'
  end.

(** The next-page requests of a run. *)
Fixpoint next_page_requests (t : list Event) : nat :=
  match t with
  | [] => 0
  | GetNextPage :: t' => S (next_page_requests t')
  | _ :: t' => next_page_requests t'
  end.

(** The errors handed to the logger during a run, with their messages. *)
Fixpoint logged_errors (t : list Event) : list (Error * string) :=
  match t with
  | [] => []
  | LogError e msg :: t' => (e, msg) :: logged_errors t'
  | _ :: t' => logged_errors t'
  end.

(** The requests of a run that read from the remote service. *)
Fixpoint remote_reads (t : list Event) : list Event :=
  match t with
  | [] => []
  | PullRequestsGet n o r :: t' => PullRequestsGet n o r :: remote_reads t'
  | ReposGetStatuses o n ref r :: t' => ReposGetStatuses o n ref r :: remote_reads t'
  | ChecksListForRef o n ref r :: t' => ChecksListForRef o n ref r :: remote_reads t'
  | GetNextPage :: t' => GetNextPage :: remote_reads t'
  | _ :: t' => remote_reads t'
  end.

(** The base fields of a payload, which [getChecksCreateParams] sets. *)
Definition base_fields (p : ChecksCreateParams)
    : string * string * string * string * string * string * string * string :=
  (p_details_url p, p_external_id p, p_head_sha p, p_name p, p_owner p,
   p_repo p, p_started_at p, p_status p).

(** ** The job-state tables (C1, C2) *)

Lemma includes_spec (l : list string) (x : string) :
  includes l x = true ↔ x ∈ l.
Proof.
  induction l as [|y l IH]; simpl.
  - split; [discriminate | intros H; inversion H].
  - destruct (String.eqb_spec y x) as [-> | Hne].
    + split; [intros _; left | reflexivity].
    + rewrite IH. split; [intros H; by right |].
      intros H. inversion H; subst; [congruence | assumption].
Qed.

(** C1: the derived status depends on [state] alone and is
    ['completed'] for passed, failed, errored and canceled, ['in_progress']
    for started, and ['queued'] for every other state, known or not. *)
Theorem getStatus_table :
  (∀ j1 j2, state j1 = state j2 → getStatus j1 = getStatus j2)
  ∧ ∀ j,
      (state j = "passed" ∨ state j = "failed" ∨ state j = "errored"
       ∨ state j = "canceled" → getStatus j = "completed")
      ∧ (state j = "started" → getStatus j = "in_progress")
      ∧ (state j ≠ "passed" → state j ≠ "failed" → state j ≠ "errored"
         → state j ≠ "canceled" → state j ≠ "started"
         → getStatus j = "queued").
Proof.
  split.
  - intros j1 j2 H. unfold getStatus. by rewrite H.
  - intros j. unfold getStatus. repeat split.
    + intros H.
      assert (Hin : includes FINISHED_STATES (state j) = true).
      { apply includes_spec, list_elem_of_In. simpl.
        destruct H as [-> | [-> | [-> | ->]]]; tauto. }
      by rewrite Hin.
    + intros ->. reflexivity.
    + intros H1 H2 H3 H4 H5.
      destruct (includes FINISHED_STATES (state j)) eqn:Hin.
      * apply includes_spec, list_elem_of_In in Hin. simpl in Hin.
        intuition congruence.
      * destruct (String.eqb_spec (state j) "started"); [contradiction | done].
Qed.

Lemma getStatus_table_witness :
  getStatus (mkJobInfo "7" "build" "u" "queued" "t0" "t1" false) = "queued"
  ∧ getStatus (mkJobInfo "7" "build" "u" "Passed" "t0" "t1" false) = "queued"
  ∧ getStatus (mkJobInfo "7" "build" "u" "errored" "t0" "t1" true) = "completed".
Proof.
  pose proof (proj2 getStatus_table) as H.
  split; [|split].
  - apply (H (mkJobInfo "7" "build" "u" "queued" "t0" "t1" false)); discriminate.
  - apply (H (mkJobInfo "7" "build" "u" "Passed" "t0" "t1" false)); discriminate.
  - apply (H (mkJobInfo "7" "build" "u" "errored" "t0" "t1" true)).
    right; right; left; reflexivity.
Defined.

(** C2: the derived conclusion is ['success'] for passed, ['failure'] for
    failed when [ignoreFailure] is off, ['cancelled'] for canceled, and
    ['neutral'] in every other case, among them failed with [ignoreFailure]
    on, and errored. *)
Theorem getConclusion_table (j : JobInfo) :
  (state j = "passed" → getConclusion j = "success")
  ∧ (state j = "failed" → ignoreFailure j = false → getConclusion j = "failure")
  ∧ (state j = "canceled" → getConclusion j = "cancelled")
  ∧ (state j = "failed" → ignoreFailure j = true → getConclusion j = "neutral")
  ∧ (state j = "errored" → getConclusion j = "neutral")
  ∧ (state j ≠ "passed" → state j ≠ "failed" → state j ≠ "canceled"
     → getConclusion j = "neutral").
Proof.
  unfold getConclusion. repeat split.
  - intros ->. reflexivity.
  - intros -> ->. reflexivity.
  - intros ->. reflexivity.
  - intros -> ->. reflexivity.
  - intros ->. reflexivity.
  - intros H1 H2 H3.
    destruct (String.eqb_spec (state j) "passed"); [contradiction |].
    destruct (String.eqb_spec (state j) "failed"); [contradiction |].
    destruct (String.eqb_spec (state j) "canceled"); [contradiction |].
    reflexivity.
Qed.

Lemma getConclusion_table_witness :
  getConclusion (mkJobInfo "7" "build" "u" "failed" "t0" "t1" true) = "neutral"
  ∧ getConclusion (mkJobInfo "7" "build" "u" "failed" "t0" "t1" false) = "failure"
  ∧ getConclusion (mkJobInfo "7" "build" "u" "queued" "t0" "t1" false) = "neutral".
Proof.
  split; [|split].
  - destruct (getConclusion_table (mkJobInfo "7" "build" "u" "failed" "t0" "t1" true))
      as (_ & _ & _ & H & _).
    apply H; reflexivity.
  - destruct (getConclusion_table (mkJobInfo "7" "build" "u" "failed" "t0" "t1" false))
      as (_ & H & _).
    apply H; reflexivity.
  - destruct (getConclusion_table (mkJobInfo "7" "build" "u" "queued" "t0" "t1" false))
      as (_ & _ & _ & _ & _ & H).
    apply H; discriminate.
Defined.

(** ** Strings: [split] against [join] *)

Lemma sapp_cons (c : Ascii.ascii) (s t : string) :
  String c s +:+ t = String c (s +:+ t).
Proof. reflexivity. Qed.

Lemma sapp_nil_l (s : string) : "" +:+ s = s.
Proof. reflexivity. Qed.

Lemma sapp_nil_r (s : string) : s +:+ "" = s.
Proof. induction s as [|c s IH]; [reflexivity |]. by rewrite sapp_cons, IH. Qed.

Lemma sapp_assoc (s t u : string) : (s +:+ t) +:+ u = s +:+ (t +:+ u).
Proof. induction s as [|c s IH]; [reflexivity |]. by rewrite !sapp_cons, IH. Qed.

Lemma occurs_app (c : Ascii.ascii) (s t : string) :
  occurs c (s +:+ t) = occurs c s || occurs c t.
Proof.
  induction s as [|c' s IH]; [reflexivity |].
  rewrite sapp_cons. simpl. rewrite IH. by rewrite orb_assoc.
Qed.

(** A split always has a first piece. *)
Lemma split_aux_cons (sep : Ascii.ascii) (s cur : string) :
  ∃ p ps, split_aux sep s cur = p :: ps.
Proof.
  revert cur. induction s as [|c s IH]; intros cur; simpl; [by eauto |].
  destruct (Ascii.eqb c sep); [by eauto | apply IH].
Qed.

(** Joining the pieces with the separator gives the string back. *)
Lemma join_split_aux (sep : Ascii.ascii) (s cur : string) :
  join sep (split_aux sep s cur) = cur +:+ s.
Proof.
  revert cur. induction s as [|c s IH]; intros cur; simpl.
  - by rewrite sapp_nil_r.
  - destruct (Ascii.eqb_spec c sep) as [-> | Hne].
    + specialize (IH ""). rewrite sapp_nil_l in IH.
      destruct (split_aux_cons sep s "") as (p & ps & Hs).
      rewrite Hs in IH |- *.
      change (join sep (cur :: p :: ps))
        with (cur +:+ String sep (join sep (p :: ps))).
      by rewrite IH.
    + rewrite IH, sapp_assoc. reflexivity.
Qed.

Lemma join_split (sep : Ascii.ascii) (s : string) : join sep (split sep s) = s.
Proof. unfold split. by rewrite join_split_aux. Qed.

(** No piece holds the separator. *)
Lemma split_aux_pieces (sep : Ascii.ascii) (s cur p : string) :
  occurs sep cur = false → p ∈ split_aux sep s cur → occurs sep p = false.
Proof.
  revert cur. induction s as [|c s IH]; intros cur Hcur; simpl.
  - intros Hp. apply list_elem_of_singleton in Hp. by subst.
  - destruct (Ascii.eqb c sep) eqn:Hc.
    + intros Hp. apply elem_of_cons in Hp as [-> | Hp]; [done |].
      by apply (IH "").
    + apply IH. rewrite occurs_app, Hcur. simpl. by rewrite Hc.
Qed.

Lemma split_pieces (sep : Ascii.ascii) (s p : string) :
  p ∈ split sep s → occurs sep p = false.
Proof. by apply split_aux_pieces. Qed.

(** Splitting a separator-free prefix off. *)
Lemma split_aux_app (sep : Ascii.ascii) (a b cur : string) :
  occurs sep a = false →
  split_aux sep (a +:+ String sep b) cur = (cur +:+ a) :: split sep b.
Proof.
  revert cur. induction a as [|c a IH]; intros cur Ha.
  - rewrite sapp_nil_l, sapp_nil_r. simpl. by rewrite Ascii.eqb_refl.
  - simpl in Ha. apply orb_false_iff in Ha as [Hc Ha].
    rewrite sapp_cons. simpl. rewrite Hc, IH by done.
    by rewrite sapp_assoc.
Qed.

Lemma split_aux_whole (sep : Ascii.ascii) (a cur : string) :
  occurs sep a = false → split_aux sep a cur = [cur +:+ a].
Proof.
  revert cur. induction a as [|c a IH]; intros cur Ha; simpl.
  - by rewrite sapp_nil_r.
  - simpl in Ha. apply orb_false_iff in Ha as [Hc Ha].
    rewrite Hc, IH by done. by rewrite sapp_assoc.
Qed.

(** The external id written by [getChecksCreateParams] decodes to its three
    fields when none of them holds a slash. *)
Lemma split_external_id (d b j : string) :
  occurs slash d = false → occurs slash b = false → occurs slash j = false →
  split slash (d +:+ "/" +:+ b +:+ "/" +:+ j) = [d; b; j].
Proof.
  intros Hd Hb Hj. unfold split.
  change (d +:+ "/" +:+ b +:+ "/" +:+ j)
    with (d +:+ String slash (b +:+ String slash j)).
  rewrite split_aux_app by done. unfold split.
  rewrite split_aux_app by done. unfold split.
  by rewrite split_aux_whole.
Qed.

(** ** The identity test and the diff, as pure functions *)

Lemma eq_piece_spec (x : string) (piece : option string) :
  eq_piece x piece = true ↔ piece = Some x.
Proof.
  destruct piece as [y|]; simpl; [| split; discriminate].
  destruct (String.eqb_spec x y); split; congruence.
Qed.

(** [isCheckForJob] decides the decoded identity; the guard on a missing or
    empty [external_id] never changes the answer. *)
Lemma isCheckForJob_spec (bi : BuildInfo) (c : CheckRun) (j : JobInfo) :
  isCheckForJob bi c j = true ↔ is_for bi c j.
Proof.
  unfold isCheckForJob, is_for.
  destruct (external_id c) as [s|]; simpl.
  - destruct (String.eqb_spec s "") as [-> | Hne].
    + split; [discriminate |].
      intros (s & rest & [= <-] & Hsplit). discriminate.
    + rewrite !andb_true_iff, !eq_piece_spec. split.
      * intros [[H0 H1] H2].
        destruct (split slash s) as [|p0 [|p1 [|p2 rest]]] eqn:Hs; simplify_eq/=.
        exists s, rest. by rewrite Hs.
      * intros (s' & rest & [= <-] & ->). done.
  - split; [discriminate |]. intros (s & rest & [=] & _).
Qed.

Lemma isCheckForJob_false (bi : BuildInfo) (c : CheckRun) (j : JobInfo) :
  isCheckForJob bi c j = false ↔ ¬ is_for bi c j.
Proof.
  rewrite <- isCheckForJob_spec. destruct (isCheckForJob bi c j); split; congruence.
Qed.

(** [find] returns the first match. *)
Lemma find_first_match (bi : BuildInfo) (existing : list CheckRun)
    (j : JobInfo) (c : CheckRun) :
  List.find (fun c => isCheckForJob bi c j) existing = Some c
  ↔ first_match bi existing j c.
Proof.
  unfold first_match. induction existing as [|x l IH]; simpl.
  - split; [discriminate |]. intros ([|] & post & H & _); discriminate.
  - destruct (isCheckForJob bi x j) eqn:Hx.
    + split.
      * intros [= ->]. exists [], l. split; [done |].
        split; [by apply isCheckForJob_spec |]. intros c' Hc'. inversion Hc'.
      * intros (pre & post & Heq & Hc & Hpre).
        destruct pre as [|y pre]; simplify_eq/=; [done |].
        exfalso. apply (Hpre y); [left | by apply isCheckForJob_spec].
    + rewrite IH. apply isCheckForJob_false in Hx. split.
      * intros (pre & post & -> & Hc & Hpre). exists (x :: pre), post.
        split; [done |]. split; [done |].
        intros c' Hc'. apply elem_of_cons in Hc' as [-> | Hc']; auto.
      * intros (pre & post & Heq & Hc & Hpre).
        destruct pre as [|y pre]; simplify_eq/=; [contradiction |].
        exists pre, post. split; [done |]. split; [done |].
        intros c' Hc'. apply Hpre. by right.
Qed.

Lemma find_no_match (bi : BuildInfo) (existing : list CheckRun) (j : JobInfo) :
  List.find (fun c => isCheckForJob bi c j) existing = None
  ↔ ∀ c, c ∈ existing → ¬ is_for bi c j.
Proof.
  induction existing as [|x l IH]; simpl.
  - split; [| done]. intros _ c Hc. inversion Hc.
  - destruct (isCheckForJob bi x j) eqn:Hx.
    + split; [discriminate |]. intros H. exfalso.
      apply (H x); [left | by apply isCheckForJob_spec].
    + rewrite IH. apply isCheckForJob_false in Hx. split.
      * intros H c Hc. apply elem_of_cons in Hc as [-> | Hc]; auto.
      * intros H c Hc. apply H. by right.
Qed.

(** The loop pushes, in input order, the jobs that pass the test. *)
Lemma checksToCreate_loop_filter (bi : BuildInfo) (existing : list CheckRun)
    (newJobs create : list JobInfo) :
  checksToCreate_loop bi existing newJobs create
  = create ++ List.filter
      (fun j => needsCreate (List.find (fun c => isCheckForJob bi c j) existing) j)
      newJobs.
Proof.
  revert create. induction newJobs as [|j l IH]; intros create; simpl.
  - by rewrite app_nil_r.
  - destruct (needsCreate _ j); rewrite IH; [| done].
    by rewrite <- app_assoc.
Qed.

Lemma needsCreate_spec (bi : BuildInfo) (existing : list CheckRun) (j : JobInfo) :
  needsCreate (List.find (fun c => isCheckForJob bi c j) existing) j = true
  ↔ (∀ c, c ∈ existing → ¬ is_for bi c j)
    ∨ ∃ c, first_match bi existing j c
           ∧ (cr_status c ≠ getStatus j ∨ cr_name c ≠ name j).
Proof.
  destruct (List.find _ existing) as [c|] eqn:Hfind; simpl.
  - pose proof Hfind as Hfirst. apply find_first_match in Hfirst.
    rewrite orb_true_iff, !negb_true_iff, !String.eqb_neq. split.
    + intros H. right. exists c. split; [done |]. destruct H; [left | right]; congruence.
    + intros [Hnone | (c' & Hc' & H)].
      * exfalso. apply find_no_match in Hnone. congruence.
      * apply find_first_match in Hc'. simplify_eq.
        destruct H; [left | right]; congruence.
  - split; [| done]. intros _. left. by apply find_no_match.
Qed.

(** ** The monad *)

Lemma outcome_bind {A B} (m : M A) (f : A → M B) :
  outcome (bind m f)
  = match outcome m with
    | Returned a => outcome (f a)
    | Thrown e => Thrown e
    end.
Proof. destruct m as [[a|e] t]; simpl; [| done]. by destruct (f a). Qed.

Lemma trace_bind {A B} (m : M A) (f : A → M B) :
  trace (bind m f)
  = trace m ++ match outcome m with
               | Returned a => trace (f a)
               | Thrown e => []
               end.
Proof.
  destruct m as [[a|e] t]; simpl; [| by rewrite app_nil_r]. by destruct (f a).
Qed.

Lemma outcome_try_catch {A} (m : M A) (h : Error → M A) :
  outcome (try_catch m h)
  = match outcome m with
    | Returned a => Returned a
    | Thrown e => outcome (h e)
    end.
Proof. destruct m as [[a|e] t]; simpl; [done |]. by destruct (h e). Qed.

Lemma trace_try_catch {A} (m : M A) (h : Error → M A) :
  trace (try_catch m h)
  = trace m ++ match outcome m with
               | Returned a => []
               | Thrown e => trace (h e)
               end.
Proof.
  destruct m as [[a|e] t]; simpl; [by rewrite app_nil_r |]. by destruct (h e).
Qed.

(** A run of answers is either served in full or fails at a first error. *)
Lemma answers_served_or_thrown {A} (l : list (Outcome A)) :
  (∃ served, l = map Returned served)
  ∨ ∃ served e later, l = map Returned served ++ Thrown e :: later.
Proof.
  induction l as [|[a|e] l IH].
  - left. by exists [].
  - destruct IH as [(served & ->) | (served & e & later & ->)].
    + left. by exists (a :: served).
    + right. by exists (a :: served), e, later.
  - right. by exists [], e, l.
Qed.

(** ** Paging through a listing with a callback that never stops early *)

Section FullListing.

Context {A B : Type} (f : A → list B).

Lemma paginate_next_served (served : list A) (collection : list B) :
  outcome (paginate_next (map Returned served) (collecting f) collection tt)
  = Returned (collection ++ concat (map f served), tt).
Proof.
  revert collection. induction served as [|a l IH]; intros collection; simpl.
  - by rewrite app_nil_r.
  - specialize (IH (collection ++ f a)).
    destruct (paginate_next _ _ _ _) as [r t]. simpl in *.
    by rewrite IH, <- app_assoc.
Qed.

Lemma paginate_next_thrown (served : list A) (e : Error)
    (later : list (Outcome A)) (collection : list B) :
  outcome (paginate_next (map Returned served ++ Thrown e :: later)
             (collecting f) collection tt)
  = Thrown e.
Proof.
  revert collection. induction served as [|a l IH]; intros collection; simpl.
  - done.
  - specialize (IH (collection ++ f a)).
    by destruct (paginate_next _ _ _ _) as [r t].
Qed.

Lemma paginate_served (request : Event) (pages : Paged A) (served : list A) :
  answers pages = map Returned served →
  outcome (paginate request pages (collecting f) tt)
  = Returned (concat (map f served), tt).
Proof.
  unfold answers, paginate. destruct pages as [first rest]; simpl.
  destruct served as [|a l]; intros [= -> ->]; simpl.
  pose proof (paginate_next_served l (f a)) as H.
  by destruct (paginate_next _ _ _ _) as [r t].
Qed.

Lemma paginate_thrown (request : Event) (pages : Paged A) (served : list A)
    (e : Error) (later : list (Outcome A)) :
  answers pages = map Returned served ++ Thrown e :: later →
  outcome (paginate request pages (collecting f) tt) = Thrown e.
Proof.
  unfold answers, paginate. destruct pages as [first rest]; simpl.
  destruct served as [|a l]; intros [= -> ->]; simpl; [done |].
  pose proof (paginate_next_thrown l e later (f a)) as H.
  by destruct (paginate_next _ _ _ _) as [r t].
Qed.

End FullListing.

(** ** [getExistingChecks] *)

(** When every page is served, the fetched collection is this application's
    check runs of all pages, in page order. *)
Lemma getExistingChecks_served (this : GitHub) (served : list (list CheckRun)) :
  answers (check_listing this) = map Returned served →
  outcome (getExistingChecks this)
  = Returned (concat (map (own_checks this) served)).
Proof.
  intros Hserved. unfold getExistingChecks.
  rewrite outcome_bind. simpl. rewrite outcome_try_catch, outcome_bind.
  pose proof (paginate_served (own_checks this)
                (ChecksListForRef (owner (buildInfo this)) 100
                   (headSha (buildInfo this)) (repo (buildInfo this)))
                (check_listing this) served Hserved) as H.
  simpl in H. unfold check_listing, own_checks, collecting in H. rewrite H.
  reflexivity.
Qed.

(** When a page request fails, the error is logged and the collection is
    empty. *)
Lemma getExistingChecks_thrown (this : GitHub) :
  listing_throws (check_listing this) →
  outcome (getExistingChecks this) = Returned []
  ∧ ∃ e, LogError e ("Error occurred fetching existing checks for build "
                      +:+ id (buildInfo this))
         ∈ trace (getExistingChecks this).
Proof.
  intros (e0 & He0).
  destruct (answers_served_or_thrown (answers (check_listing this)))
    as [(served & Hs) | (served & e & later & Hs)].
  { rewrite Hs in He0. apply list_elem_of_fmap in He0 as (? & ? & _). discriminate. }
  pose proof (paginate_thrown (own_checks this)
                (ChecksListForRef (owner (buildInfo this)) 100
                   (headSha (buildInfo this)) (repo (buildInfo this)))
                (check_listing this) served e later Hs) as H.
  simpl in H. unfold check_listing, own_checks, collecting in H.
  unfold getExistingChecks. split.
  - rewrite outcome_bind. simpl. rewrite outcome_try_catch, outcome_bind, H.
    reflexivity.
  - exists e. rewrite trace_bind. simpl.
    rewrite trace_try_catch, outcome_bind, H, trace_bind. simpl.
    apply elem_of_cons. right. apply elem_of_app. right. by left.
Qed.

(** [getExistingChecks] never throws. *)
Lemma getExistingChecks_returns (this : GitHub) :
  ∃ existing, outcome (getExistingChecks this) = Returned existing.
Proof.
  destruct (answers_served_or_thrown (answers (check_listing this)))
    as [(served & Hs) | (served & e & later & Hs)].
  - eexists. by apply getExistingChecks_served.
  - exists []. apply getExistingChecks_thrown. exists e. rewrite Hs.
    apply elem_of_app. right. by left.
Qed.

(** [checksToCreate] returns the jobs of the input that pass the test against
    the fetched collection, in input order. *)
Lemma checksToCreate_outcome (this : GitHub) (newJobs : list JobInfo)
    (existing : list CheckRun) :
  outcome (getExistingChecks this) = Returned existing →
  outcome (checksToCreate this newJobs)
  = Returned
      (List.filter
         (fun j => needsCreate
                     (List.find (fun c => isCheckForJob (buildInfo this) c j) existing) j)
         newJobs).
Proof.
  intros H. unfold checksToCreate. rewrite outcome_bind, H. simpl.
  by rewrite checksToCreate_loop_filter.
Qed.

(** Membership in the result of [checksToCreate]. *)
Lemma checksToCreate_member (this : GitHub) (jobs : list JobInfo)
    (existing : list CheckRun) :
  outcome (getExistingChecks this) = Returned existing →
  ∃ created,
    outcome (checksToCreate this jobs) = Returned created
    ∧ ∀ j, j ∈ created ↔
           j ∈ jobs
           ∧ ((∀ c, c ∈ existing → ¬ is_for (buildInfo this) c j)
              ∨ ∃ c, first_match (buildInfo this) existing j c
                     ∧ (cr_status c ≠ getStatus j ∨ cr_name c ≠ name j)).
Proof.
  intros Hex. eexists. split; [by apply checksToCreate_outcome |].
  intros j. rewrite !list_elem_of_In, filter_In, needsCreate_spec.
  reflexivity.
Qed.

(** ** The diff (C3, C5, C6, C10) *)

(** C3: a job of the input is in the result of [checksToCreate] exactly when
    no fetched check run decodes to its identity, or the matching check run
    (the one [find] meets first in the fetched collection) differs from it in
    derived status or in name; and when the matching check run agrees with
    the job in identity, status and name, [checksToCreate [job]] is empty. *)
Theorem checksToCreate_iff (this : GitHub) (jobs : list JobInfo)
    (existing : list CheckRun) :
  outcome (getExistingChecks this) = Returned existing →
  (∃ created,
     outcome (checksToCreate this jobs) = Returned created
     ∧ ∀ j, j ∈ created ↔
            j ∈ jobs
            ∧ ((∀ c, c ∈ existing → ¬ is_for (buildInfo this) c j)
               ∨ ∃ c, first_match (buildInfo this) existing j c
                      ∧ (cr_status c ≠ getStatus j ∨ cr_name c ≠ name j)))
  ∧ ∀ job c,
      first_match (buildInfo this) existing job c →
      cr_status c = getStatus job → cr_name c = name job →
      outcome (checksToCreate this [job]) = Returned [].
Proof.
  intros Hex. split.
  - by apply checksToCreate_member.
  - intros job c Hfirst Hst Hname.
    rewrite (checksToCreate_outcome this [job] existing Hex). simpl.
    apply find_first_match in Hfirst. rewrite Hfirst. simpl.
    by rewrite Hst, Hname, !String.eqb_refl.
Qed.

Lemma checksToCreate_iff_witness :
  outcome (checksToCreate
             (instance5 (mkPaged (Returned [check7 "in_progress" None]) [])
                (Returned 1%Z) (Returned None))
             [job7 "started"])
  = Returned [].
Proof.
  refine (proj2 (checksToCreate_iff
                   (instance5 (mkPaged (Returned [check7 "in_progress" None]) [])
                      (Returned 1%Z) (Returned None))
                   [job7 "started"] [check7 "in_progress" None] _)
            (job7 "started") (check7 "in_progress" None) _ _ _).
  - reflexivity.
  - exists [], []. split; [reflexivity |]. split.
    + exists "ci/42/7", []. split; reflexivity.
    + intros c' Hc'. inversion Hc'.
  - reflexivity.
  - reflexivity.
Defined.

Lemma filter_all {A} (f : A → bool) (l : list A) :
  (∀ x, f x = true) → List.filter f l = l.
Proof.
  intros Hf. induction l as [|x l IH]; simpl; [done |]. by rewrite Hf, IH.
Qed.

(** C5: when a request for a page of existing check runs throws,
    [getExistingChecks] logs the error and yields the empty collection, and
    [checksToCreate jobs] returns [jobs] itself. *)
Theorem checksToCreate_fail_open (this : GitHub) (jobs : list JobInfo) :
  listing_throws (check_listing this) →
  outcome (getExistingChecks this) = Returned []
  ∧ (∃ e, LogError e ("Error occurred fetching existing checks for build "
                       +:+ id (buildInfo this))
          ∈ trace (getExistingChecks this))
  ∧ outcome (checksToCreate this jobs) = Returned jobs.
Proof.
  intros Hthrows.
  destruct (getExistingChecks_thrown this Hthrows) as [Hout Hlog].
  repeat split; [done | done |].
  rewrite (checksToCreate_outcome this jobs [] Hout).
  by rewrite filter_all.
Qed.

Lemma checksToCreate_fail_open_witness :
  outcome (checksToCreate
             (instance5 (mkPaged (Returned [check7 "queued" None])
                           [Thrown "rate limit"; Returned []])
                (Returned 1%Z) (Returned None))
             [job7 "queued"; job7 "started"; job7 "queued"])
  = Returned [job7 "queued"; job7 "started"; job7 "queued"].
Proof.
  apply (checksToCreate_fail_open
           (instance5 (mkPaged (Returned [check7 "queued" None])
                         [Thrown "rate limit"; Returned []])
              (Returned 1%Z) (Returned None))).
  exists "rate limit". right. left.
Defined.

Lemma filter_sublist {A} (f : A → bool) (l : list A) :
  List.filter f l `sublist_of` l.
Proof.
  induction l as [|x l IH]; simpl; [constructor |].
  destruct (f x); by constructor.
Qed.

(** C6: the list returned by [checksToCreate] is a subsequence of the input:
    it is obtained from the input by dropping elements, so it keeps the
    input's order, holds only elements of the input, and repeats none that
    the input does not repeat. *)
Theorem checksToCreate_subsequence (this : GitHub) (jobs : list JobInfo) :
  ∃ created,
    outcome (checksToCreate this jobs) = Returned created
    ∧ created `sublist_of` jobs
    ∧ (∀ j, j ∈ created → j ∈ jobs)
    ∧ (NoDup jobs → NoDup created).
Proof.
  destruct (getExistingChecks_returns this) as [existing Hex].
  eexists. split; [by apply checksToCreate_outcome |].
  pose proof (filter_sublist
    (fun j => needsCreate
                (List.find (fun c => isCheckForJob (buildInfo this) c j) existing) j)
    jobs) as Hsub.
  split; [done |]. split.
  - intros j Hj. by eapply sublist_subseteq.
  - intros Hnd. by eapply sublist_NoDup.
Qed.

(** C10: the diff never looks at the conclusion.  A job whose derived status
    is ['completed'] and whose matching check run has status ['completed']
    and the job's name is left out of the result, whatever conclusion the
    check run carries; and a check run whose [external_id] is missing or
    empty is for no job. *)
Theorem checksToCreate_ignores_conclusion :
  (∀ (this : GitHub) (jobs : list JobInfo) (existing : list CheckRun)
     (j : JobInfo) (c : CheckRun),
     outcome (getExistingChecks this) = Returned existing →
     first_match (buildInfo this) existing j c →
     getStatus j = "completed" → cr_status c = "completed" →
     cr_name c = name j →
     ∃ created, outcome (checksToCreate this jobs) = Returned created
                ∧ j ∉ created)
  ∧ ∀ (bi : BuildInfo) (c : CheckRun) (j : JobInfo),
      external_id c = None ∨ external_id c = Some "" →
      isCheckForJob bi c j = false ∧ ¬ is_for bi c j.
Proof.
  split.
  - intros this jobs existing j c Hex Hfirst Hj Hc Hname.
    destruct (checksToCreate_member this jobs existing Hex)
      as (created & Hout & Hiff).
    exists created. split; [done |].
    intros Hin. apply Hiff in Hin as [_ [Hnone | (c' & Hc' & Hdiff)]].
    + destruct Hfirst as (pre & post & -> & Hfor & _).
      apply (Hnone c); [| done]. apply elem_of_app. right. by left.
    + apply find_first_match in Hfirst, Hc'. simplify_eq.
      destruct Hdiff; congruence.
  - intros bi c j H.
    assert (Hfalse : isCheckForJob bi c j = false).
    { unfold isCheckForJob. by destruct H as [-> | ->]. }
    split; [done | by apply isCheckForJob_false].
Qed.

Lemma checksToCreate_ignores_conclusion_witness :
  cr_conclusion (check7 "completed" (Some "failure"))
    ≠ Some (getConclusion (job7 "passed"))
  ∧ (∃ created,
       outcome (checksToCreate
                  (instance5
                     (mkPaged (Returned [check7 "completed" (Some "failure")]) [])
                     (Returned 1%Z) (Returned None))
                  [job7 "passed"])
       = Returned created
       ∧ job7 "passed" ∉ created)
  ∧ isCheckForJob build42
      (mkCheckRun (Some "") "completed" "build" None 5) (job7 "passed") = false.
Proof.
  split; [discriminate |]. split.
  - apply (proj1 checksToCreate_ignores_conclusion
             (instance5
                (mkPaged (Returned [check7 "completed" (Some "failure")]) [])
                (Returned 1%Z) (Returned None))
             [job7 "passed"] [check7 "completed" (Some "failure")]
             (job7 "passed") (check7 "completed" (Some "failure"))).
    + reflexivity.
    + exists [], []. split; [reflexivity |]. split.
      * exists "ci/42/7", []. split; reflexivity.
      * intros c' Hc'. inversion Hc'.
    + reflexivity.
    + reflexivity.
    + reflexivity.
  - apply (proj2 checksToCreate_ignores_conclusion build42
             (mkCheckRun (Some "") "completed" "build" None 5) (job7 "passed")).
    by right.
Defined.

(** ** [createCheck] (C4, C7, C9) *)

Lemma sent_payloads_app (t1 t2 : list Event) :
  sent_payloads (t1 ++ t2) = sent_payloads t1 ++ sent_payloads t2.
Proof.
  induction t1 as [|ev t1 IH]; simpl; [done |].
  destruct ev; simpl; by rewrite ?IH.
Qed.

Lemma output_fetches_app (t1 t2 : list Event) :
  output_fetches (t1 ++ t2) = output_fetches t1 ++ output_fetches t2.
Proof.
  induction t1 as [|ev t1 IH]; simpl; [done |].
  destruct ev; simpl; by rewrite ?IH.
Qed.

Lemma canceled_tables (j : JobInfo) :
  state j = "canceled" →
  getStatus j = "completed" ∧ getConclusion j = "cancelled".
Proof. unfold getStatus, getConclusion. by intros ->. Qed.

(** What [addCompletionInfo] does, case by case. *)
Lemma addCompletionInfo_run (this : GitHub) (payload : ChecksCreateParams)
    (j : JobInfo) :
  let completed := set_completion payload (getConclusion j) (finishedAt j) in
  addCompletionInfo this payload j
  = if String.eqb (getConclusion j) "cancelled" then (Returned completed, [])
    else match getJobOutput this j with
         | Returned (Some o) => (Returned (set_output completed o), [GetJobOutput j])
         | Returned None => (Returned completed, [GetJobOutput j])
         | Thrown e =>
             (Returned completed,
              [GetJobOutput j;
               LogError e ("Error occurred while getting job output for job "
                           +:+ jobId j +:+ ", output will be skipped")])
         end.
Proof.
  unfold addCompletionInfo. simpl.
  destruct (String.eqb (getConclusion j) "cancelled"); [done |].
  by destruct (getJobOutput this j) as [[o|]|e].
Qed.

(** Preparing the payload never throws and never calls [checks.create]; it
    leaves the identity and the status of the base payload alone. *)
Lemma prepared_payload_returns (this : GitHub) (j : JobInfo) :
  ∃ payload t,
    prepared_payload this j = (Returned payload, t)
    ∧ sent_payloads t = []
    ∧ p_external_id payload
      = domain (buildInfo this) +:+ "/" +:+ id (buildInfo this) +:+ "/" +:+ jobId j
    ∧ p_status payload = getStatus j
    ∧ (getStatus j ≠ "completed" →
       payload = getChecksCreateParams (buildInfo this) j ∧ t = [])
    ∧ (state j = "canceled" →
       t = []
       ∧ payload = set_completion (getChecksCreateParams (buildInfo this) j)
                     "cancelled" (finishedAt j)).
Proof.
  unfold prepared_payload.
  destruct (String.eqb_spec (getStatus j) "completed") as [Hc | Hc].
  - rewrite addCompletionInfo_run. cbv zeta.
    destruct (String.eqb_spec (getConclusion j) "cancelled") as [Hcon | Hcon].
    + eexists _, _. split; [done |]. repeat split; try done.
      by rewrite Hcon.
    + assert (Hst : state j ≠ "canceled").
      { intros Hst. apply Hcon. by apply canceled_tables. }
      destruct (getJobOutput this j) as [[o|]|e];
        eexists _, _; (split; [done |]); repeat split; done.
  - eexists _, _. split; [done |]. do 3 (split; [done |]).
    split; [done |]. intros Hst. exfalso. apply Hc. by apply canceled_tables.
Qed.

Lemma createCheck_unfold (this : GitHub) (j : JobInfo) :
  createCheck this j
  = let! payload := prepared_payload this j in
    emit (LogDebug ("Creating check for job " +:+ jobId j) (Some payload)) ;>
    try_catch
      (let! result := call (ChecksCreate payload) (checks_create (client this) payload) in
       let checkRunId := toString result in
       emit (LogDebug ("Check " +:+ checkRunId +:+ " created for job "
                       +:+ jobId j) None) ;>
       ret (Some checkRunId))
      (fun e =>
         emit (LogError e ("Error occurred creating check for job " +:+ jobId j)) ;>
         ret None).
Proof. reflexivity. Qed.

(** The whole run of [createCheck], given the prepared payload. *)
Lemma createCheck_run (this : GitHub) (j : JobInfo)
    (payload : ChecksCreateParams) (t : list Event) :
  prepared_payload this j = (Returned payload, t) →
  createCheck this j
  = match checks_create (client this) payload with
    | Returned idn =>
        (Returned (Some (toString idn)),
         t ++ [LogDebug ("Creating check for job " +:+ jobId j) (Some payload);
               ChecksCreate payload;
               LogDebug ("Check " +:+ toString idn +:+ " created for job "
                         +:+ jobId j) None])
    | Thrown e =>
        (Returned None,
         t ++ [LogDebug ("Creating check for job " +:+ jobId j) (Some payload);
               ChecksCreate payload;
               LogError e ("Error occurred creating check for job " +:+ jobId j)])
    end.
Proof.
  intros H. rewrite createCheck_unfold, H. simpl.
  by destruct (checks_create (client this) payload).
Qed.

(** [createCheck] hands exactly one payload to [checks.create]: the prepared
    one. *)
Lemma createCheck_sends (this : GitHub) (j : JobInfo)
    (payload : ChecksCreateParams) (t : list Event) :
  prepared_payload this j = (Returned payload, t) → sent_payloads t = [] →
  sent_payloads (trace (createCheck this j)) = [payload].
Proof.
  intros H Ht. rewrite (createCheck_run this j payload t H).
  destruct (checks_create (client this) payload); simpl;
    by rewrite sent_payloads_app, Ht.
Qed.

(** C4: the payload that [createCheck] hands to [checks.create] has
    [external_id] equal to domain, build id and job id joined by slashes; for
    the build [ci]/[42] and job [7] in state started it is ["ci/42/7"] with
    status ['in_progress'] and no completion field. *)
Theorem createCheck_external_id (this : GitHub) (j : JobInfo) :
  ∃ payload,
    sent_payloads (trace (createCheck this j)) = [payload]
    ∧ p_external_id payload
      = domain (buildInfo this) +:+ "/" +:+ id (buildInfo this) +:+ "/" +:+ jobId j
    ∧ (domain (buildInfo this) = "ci" → id (buildInfo this) = "42" →
       jobId j = "7" → state j = "started" →
       p_external_id payload = "ci/42/7"
       ∧ p_status payload = "in_progress"
       ∧ p_conclusion payload = None
       ∧ p_completed_at payload = None
       ∧ p_output payload = None).
Proof.
  destruct (prepared_payload_returns this j)
    as (payload & t & Hprep & Ht & Hid & Hstatus & Hbase & _).
  exists payload. split; [by eapply createCheck_sends |]. split; [done |].
  intros Hd Hb Hj Hs.
  assert (Hst : getStatus j = "in_progress") by (unfold getStatus; by rewrite Hs).
  destruct Hbase as [-> _]; [by rewrite Hst |].
  simpl. by rewrite Hd, Hb, Hj, Hst.
Qed.

Lemma createCheck_external_id_witness :
  ∃ payload,
    sent_payloads
      (trace (createCheck (instance5 (mkPaged (Returned []) []) (Returned 99%Z)
                             (Returned None))
                (job7 "started")))
    = [payload]
    ∧ p_external_id payload = "ci/42/7"
    ∧ p_status payload = "in_progress"
    ∧ p_conclusion payload = None
    ∧ p_completed_at payload = None
    ∧ p_output payload = None.
Proof.
  destruct (createCheck_external_id
              (instance5 (mkPaged (Returned []) []) (Returned 99%Z) (Returned None))
              (job7 "started"))
    as (payload & Hsent & _ & Hex).
  exists payload. split; [exact Hsent |].
  apply Hex; reflexivity.
Defined.

(** C7: for a job in state canceled, [createCheck] never invokes
    [getJobOutput]; the payload it sends has conclusion ['cancelled'],
    [completed_at] set to the job's finish time, and no output. *)
Theorem createCheck_canceled_no_output (this : GitHub) (j : JobInfo) :
  state j = "canceled" →
  output_fetches (trace (createCheck this j)) = []
  ∧ ∃ payload,
      sent_payloads (trace (createCheck this j)) = [payload]
      ∧ p_conclusion payload = Some "cancelled"
      ∧ p_completed_at payload = Some (finishedAt j)
      ∧ p_output payload = None.
Proof.
  intros Hs.
  destruct (prepared_payload_returns this j)
    as (payload & t & Hprep & Ht & _ & _ & _ & Hcanceled).
  destruct (Hcanceled Hs) as [-> ->]. split.
  - rewrite (createCheck_run this j _ _ Hprep).
    by destruct (checks_create (client this) _).
  - eexists. split; [by eapply createCheck_sends |]. done.
Qed.

Lemma createCheck_canceled_no_output_witness :
  output_fetches
    (trace (createCheck
              (instance5 (mkPaged (Returned []) []) (Returned 99%Z)
                 (Returned (Some (mkJobOutput "title" "summary" None))))
              (job7 "canceled")))
  = [].
Proof.
  apply (createCheck_canceled_no_output
           (instance5 (mkPaged (Returned []) []) (Returned 99%Z)
              (Returned (Some (mkJobOutput "title" "summary" None))))
           (job7 "canceled")).
  reflexivity.
Defined.

(** C9: [createCheck] never throws and calls [checks.create] exactly once.
    When the call succeeds the result is a string, the created check run's
    identifier in decimal digits for an identifier that is a safe integer;
    when it fails the error is logged with the job id and the result is
    undefined. *)
Theorem createCheck_never_throws (this : GitHub) (j : JobInfo) :
  (∃ r, outcome (createCheck this j) = Returned r)
  ∧ ∃ payload,
      sent_payloads (trace (createCheck this j)) = [payload]
      ∧ match checks_create (client this) payload with
        | Returned idn =>
            (∃ checkRunId, outcome (createCheck this j) = Returned (Some checkRunId))
            ∧ (safe_integer idn →
               outcome (createCheck this j) = Returned (Some (toString idn)))
        | Thrown e =>
            outcome (createCheck this j) = Returned None
            ∧ LogError e ("Error occurred creating check for job " +:+ jobId j)
              ∈ trace (createCheck this j)
        end.
Proof.
  destruct (prepared_payload_returns this j)
    as (payload & t & Hprep & Ht & _).
  pose proof (createCheck_sends this j payload t Hprep Ht) as Hsent.
  pose proof (createCheck_run this j payload t Hprep) as Hrun.
  destruct (checks_create (client this) payload) as [idn | e] eqn:Hcreate.
  - split; [rewrite Hrun; by eexists |].
    exists payload. split; [done |]. rewrite Hcreate, Hrun.
    split; [by eexists | done].
  - split; [rewrite Hrun; by eexists |].
    exists payload. split; [done |]. rewrite Hcreate, Hrun. split; [done |].
    simpl. apply elem_of_app. right. do 2 right. by left.
Qed.

Lemma createCheck_never_throws_witness :
  outcome (createCheck
             (instance5 (mkPaged (Returned []) []) (Returned 9007199254740991%Z)
                (Returned None))
             (job7 "started"))
  = Returned (Some "9007199254740991").
Proof.
  destruct (createCheck_never_throws
              (instance5 (mkPaged (Returned []) [])
                 (Returned 9007199254740991%Z) (Returned None))
              (job7 "started"))
    as (_ & payload & _ & _ & H).
  apply H. unfold safe_integer. reflexivity.
Defined.

(** ** [getLatestTravisStatus] (C8) *)

Lemma scan_page_none (page : list Status) :
  scan_page page = None ↔ ∀ st, st ∈ page → ¬ is_travis st.
Proof.
  unfold is_travis. induction page as [|x l IH]; simpl.
  - split; [| done]. intros _ st Hst. inversion Hst.
  - destruct (String.eqb_spec (context x) travis_context) as [Hx | Hx].
    + split; [discriminate |]. intros H. exfalso. apply (H x); [left | done].
    + rewrite IH. split.
      * intros H st Hst. apply elem_of_cons in Hst as [-> | Hst]; auto.
      * intros H st Hst. apply H. by right.
Qed.

Lemma scan_page_some (page : list Status) (st : Status) :
  scan_page page = Some st
  ↔ ∃ before after, page = before ++ st :: after
                    ∧ is_travis st
                    ∧ ∀ st', st' ∈ before → ¬ is_travis st'.
Proof.
  unfold is_travis. induction page as [|x l IH]; simpl.
  - split; [discriminate |]. intros ([|] & after & H & _); discriminate.
  - destruct (String.eqb_spec (context x) travis_context) as [Hx | Hx].
    + split.
      * intros [= ->]. exists [], l. split; [done |]. split; [done |].
        intros st' Hst'. inversion Hst'.
      * intros (before & after & Heq & Hst & Hbefore).
        destruct before as [|y before]; simplify_eq/=; [done |].
        exfalso. apply (Hbefore y); [left | done].
    + rewrite IH. split.
      * intros (before & after & -> & Hst & Hbefore).
        exists (x :: before), after. split; [done |]. split; [done |].
        intros st' Hst'. apply elem_of_cons in Hst' as [-> | Hst']; auto.
      * intros (before & after & Heq & Hst & Hbefore).
        destruct before as [|y before]; simplify_eq/=; try done.
        exists before, after. split; [done |]. split; [done |].
        intros st' Hst'. apply Hbefore. by right.
Qed.

(** Paging with the Travis callback computes [scan_answers]. *)
Lemma paginate_next_travis (l : list (Outcome (list Status)))
    (collection : list unit) :
  outcome_map snd (outcome (paginate_next l travis_callback collection None))
  = scan_answers l.
Proof.
  revert collection. induction l as [|[page|e] l IH]; intros collection; simpl.
  - done.
  - unfold travis_callback. destruct (scan_page page) as [st|]; [done |].
    specialize (IH (collection ++ [])).
    by destruct (paginate_next l _ _ _) as [r t].
  - done.
Qed.

Lemma paginate_travis (request : Event) (pages : Paged (list Status)) :
  outcome_map snd (outcome (paginate request pages travis_callback None))
  = scan_answers (answers pages).
Proof.
  unfold paginate, answers. destruct pages as [[page|e] rest]; simpl; [| done].
  unfold travis_callback. destruct (scan_page page) as [st|]; [done |].
  pose proof (paginate_next_travis rest []) as H.
  by destruct (paginate_next rest _ _ _) as [r t].
Qed.

Lemma scan_answers_none (pages : Paged (list Status)) :
  no_travis_status pages →
  scan_answers (answers pages) = Returned None
  ∨ ∃ e, scan_answers (answers pages) = Thrown e.
Proof.
  unfold no_travis_status. generalize (answers pages). clear pages.
  induction l as [|[page|e] l IH]; intros H; simpl.
  - by left.
  - assert (Hpage : scan_page page = None).
    { apply scan_page_none. intros st. apply H. by left. }
    rewrite Hpage. apply IH. intros page' st Hin. apply H. by right.
  - right. by exists e.
Qed.

Lemma scan_answers_thrown (pages : Paged (list Status)) :
  page_fetch_throws pages → ∃ e, scan_answers (answers pages) = Thrown e.
Proof.
  intros (served & e & later & -> & Hclean). exists e.
  induction served as [|page served IH]; simpl; [done |].
  assert (Hpage : scan_page page = None).
  { apply scan_page_none. intros st. apply Hclean. by left. }
  rewrite Hpage. apply IH. intros page' st Hin. apply Hclean. by right.
Qed.

Lemma scan_answers_first (pages : Paged (list Status)) (st : Status) :
  first_travis_status pages st → scan_answers (answers pages) = Returned (Some st).
Proof.
  intros (served & before & after & later & -> & Hst & Hclean & Hbefore).
  induction served as [|page served IH]; simpl.
  - assert (Hpage : scan_page (before ++ st :: after) = Some st).
    { apply scan_page_some. by exists before, after. }
    by rewrite Hpage.
  - assert (Hpage : scan_page page = None).
    { apply scan_page_none. intros st'. apply Hclean. by left. }
    rewrite Hpage. apply IH. intros page' st' Hin. apply Hclean. by right.
Qed.

(** Every listing falls under one of the three cases. *)
Lemma status_listing_cases (pages : Paged (list Status)) :
  no_travis_status pages ∨ page_fetch_throws pages
  ∨ ∃ st, first_travis_status pages st.
Proof.
  unfold no_travis_status, page_fetch_throws, first_travis_status.
  generalize (answers pages). clear pages.
  induction l as [|[page|e] l IH].
  - left. intros page st Hin. inversion Hin.
  - destruct (scan_page page) as [st|] eqn:Hpage.
    + right; right. apply scan_page_some in Hpage as (before & after & -> & Hst & Hb).
      exists st, [], before, after, l. split; [done |]. split; [done |].
      split; [| done]. intros page st' Hin. inversion Hin.
    + pose proof (proj1 (scan_page_none page) Hpage) as Hclean.
      destruct IH as [Hnone | [(served & e & later & -> & Hs)
                              | (st & served & before & after & later & -> & Hst & Hs & Hb)]].
      * left. intros page' st Hin.
        apply elem_of_cons in Hin as [[= ->] | Hin]; [apply Hclean | by apply Hnone].
      * right; left. exists (page :: served), e, later. split; [done |].
        intros page' st Hin.
        apply elem_of_cons in Hin as [-> | Hin]; [apply Hclean | by apply Hs].
      * right; right. exists st, (page :: served), before, after, later.
        split; [done |]. split; [done |]. split; [| done].
        intros page' st' Hin.
        apply elem_of_cons in Hin as [-> | Hin]; [apply Hclean | by apply Hs].
  - right; left. exists [], e, l. split; [done |].
    intros page st Hin. inversion Hin.
Qed.

(** The result of [getLatestTravisStatus] in terms of what the remote
    answers. *)
Lemma getLatestTravisStatus_outcome (github : GitHubAPI) (ic : IssueComment) :
  outcome (getLatestTravisStatus github ic)
  = match fetched_pr github ic with
    | Thrown e => Returned None
    | Returned pr =>
        match head pr with
        | None => Returned None
        | Some h =>
            match scan_answers (answers (status_listing github ic h)) with
            | Thrown e => Returned None
            | Returned None => Returned None
            | Returned (Some st) =>
                Returned (Some {| si_repository := repository ic;
                                  si_sha := sha h;
                                  si_target_url := target_url st |})
            end
        end
    end.
Proof.
  unfold getLatestTravisStatus. rewrite outcome_try_catch, outcome_bind.
  simpl. fold (fetched_pr github ic).
  destruct (fetched_pr github ic) as [[[h|]] | e]; simpl; [| done | done].
  rewrite outcome_bind. fold (status_listing github ic h).
  pose proof (paginate_travis
                (ReposGetStatuses (owner_login (repository ic)) 100 (sha h)
                   (repo_name (repository ic)))
                (status_listing github ic h)) as H.
  simpl in H. rewrite <- H.
  by destruct (outcome (paginate _ _ _ _)) as [[coll [st|]] | e].
Qed.

(** C8: [getLatestTravisStatus] never throws.  It returns undefined when the
    pull request has no head, when no status of any page has the Travis
    context, and when a remote call throws; otherwise it returns the
    repository, the head commit's sha and the target URL of the matching
    status, which is the first one that paging meets. *)
Theorem getLatestTravisStatus_result (github : GitHubAPI) (ic : IssueComment) :
  let pr := fetched_pr github ic in
  let result := outcome (getLatestTravisStatus github ic) in
  let no_head := pr = Returned (mkPullRequest None) in
  let no_status :=
    ∃ h, pr = Returned (mkPullRequest (Some h))
         ∧ no_travis_status (status_listing github ic h) in
  let call_throws :=
    (∃ e, pr = Thrown e)
    ∨ ∃ h, pr = Returned (mkPullRequest (Some h))
           ∧ page_fetch_throws (status_listing github ic h) in
  let found h st :=
    Returned (Some {| si_repository := repository ic;
                      si_sha := sha h;
                      si_target_url := target_url st |}) in
  (∃ r, result = Returned r)
  ∧ (no_head → result = Returned None)
  ∧ (no_status → result = Returned None)
  ∧ (call_throws → result = Returned None)
  ∧ (∀ h st, pr = Returned (mkPullRequest (Some h)) →
             first_travis_status (status_listing github ic h) st →
             result = found h st)
  ∧ (¬ no_head → ¬ no_status → ¬ call_throws →
     ∃ h st, pr = Returned (mkPullRequest (Some h))
             ∧ first_travis_status (status_listing github ic h) st
             ∧ result = found h st).
Proof.
  cbv zeta. rewrite getLatestTravisStatus_outcome.
  assert (Hnone : ∀ h, fetched_pr github ic = Returned (mkPullRequest (Some h)) →
            no_travis_status (status_listing github ic h) →
            match scan_answers (answers (status_listing github ic h)) with
            | Returned (Some st) =>
                Returned (Some {| si_repository := repository ic;
                                  si_sha := sha h;
                                  si_target_url := target_url st |})
            | _ => Returned None
            end = Returned None).
  { intros h _ Hno.
    by destruct (scan_answers_none _ Hno) as [-> | [e ->]]. }
  assert (Hthrown : ∀ h, page_fetch_throws (status_listing github ic h) →
            match scan_answers (answers (status_listing github ic h)) with
            | Returned (Some st) =>
                Returned (Some {| si_repository := repository ic;
                                  si_sha := sha h;
                                  si_target_url := target_url st |})
            | _ => Returned None
            end = Returned None).
  { intros h Hth. by destruct (scan_answers_thrown _ Hth) as [e ->]. }
  split; [| split; [| split; [| split; [| split]]]].
  - destruct (fetched_pr github ic) as [[[h|]] | e]; cbn [head]; [| by eexists..].
    destruct (scan_answers _) as [[st|] | e]; by eexists.
  - by intros ->.
  - intros (h & Hpr & Hno). rewrite Hpr. cbn [head]. by apply Hnone.
  - intros [[e ->] | (h & Hpr & Hth)]; [done |]. rewrite Hpr. cbn [head].
    by apply Hthrown.
  - intros h st -> Hfirst. cbn [head]. by rewrite (scan_answers_first _ _ Hfirst).
  - intros Hhead Hstatus Hcall.
    destruct (fetched_pr github ic) as [[[h|]] | e] eqn:Hpr.
    + destruct (status_listing_cases (status_listing github ic h))
        as [Hno | [Hth | [st Hfirst]]].
      * exfalso. apply Hstatus. by exists h.
      * exfalso. apply Hcall. right. by exists h.
      * exists h, st. split; [done |]. split; [done |]. cbn [head].
        by rewrite (scan_answers_first _ _ Hfirst).
    + by exfalso.
    + exfalso. apply Hcall. left. by exists e.
Qed.

Lemma getLatestTravisStatus_result_witness :
  outcome
    (getLatestTravisStatus
       (remote (Returned (mkPullRequest (Some (mkHead "abc"))))
          (mkPaged (Returned [mkStatus "codecov/patch" "u1"])
             [Returned [mkStatus travis_context "u2"; mkStatus travis_context "u3"];
              Thrown "never requested"])
          (mkPaged (Returned []) []) (Returned 1%Z))
       comment12)
  = Returned (Some (mkStatusInfo repo_o_r "abc" "u2"))
  ∧ outcome
      (getLatestTravisStatus
         (remote (Returned (mkPullRequest (Some (mkHead "abc"))))
            (mkPaged (Returned [mkStatus "codecov/patch" "u1"])
               [Thrown "rate limit";
                Returned [mkStatus travis_context "u2"]])
            (mkPaged (Returned []) []) (Returned 1%Z))
         comment12)
    = Returned None.
Proof.
  split.
  - destruct (getLatestTravisStatus_result
                (remote (Returned (mkPullRequest (Some (mkHead "abc"))))
                   (mkPaged (Returned [mkStatus "codecov/patch" "u1"])
                      [Returned [mkStatus travis_context "u2";
                                 mkStatus travis_context "u3"];
                       Thrown "never requested"])
                   (mkPaged (Returned []) []) (Returned 1%Z))
                comment12) as (_ & _ & _ & _ & H & _).
    apply (H (mkHead "abc") (mkStatus travis_context "u2")); [reflexivity |].
    exists [[mkStatus "codecov/patch" "u1"]], [], [mkStatus travis_context "u3"],
      [Thrown "never requested"].
    split; [reflexivity |]. split; [reflexivity |]. split.
    + intros page st Hp Hs. apply list_elem_of_singleton in Hp as ->.
      apply list_elem_of_singleton in Hs as ->. discriminate.
    + intros st Hs. inversion Hs.
  - destruct (getLatestTravisStatus_result
                (remote (Returned (mkPullRequest (Some (mkHead "abc"))))
                   (mkPaged (Returned [mkStatus "codecov/patch" "u1"])
                      [Thrown "rate limit";
                       Returned [mkStatus travis_context "u2"]])
                   (mkPaged (Returned []) []) (Returned 1%Z))
                comment12) as (_ & _ & _ & H & _).
    apply H. right. exists (mkHead "abc"). split; [reflexivity |].
    exists [[mkStatus "codecov/patch" "u1"]], "rate limit",
      [Returned [mkStatus travis_context "u2"]].
    split; [reflexivity |].
    intros page st Hp Hs. apply list_elem_of_singleton in Hp as ->.
    apply list_elem_of_singleton in Hs as ->. discriminate.
Defined.

(** ** The model on concrete values *)

Example split_three : split slash "ci/42/7" = ["ci"; "42"; "7"].
Proof. reflexivity. Qed.

Example split_trailing : split slash "a//b/" = ["a"; ""; "b"; ""].
Proof. reflexivity. Qed.

Example split_empty : split slash "" = [""].
Proof. reflexivity. Qed.

Example toString_decimal :
  toString 1234567890 = "1234567890" ∧ toString 0 = "0".
Proof. split; reflexivity. Qed.

(** A check run that carries the external id written by
    [getChecksCreateParams] is for the job it was created from, provided the
    three fields hold no slash. *)
Lemma created_check_is_for (bi : BuildInfo) (c : CheckRun) (j : JobInfo) :
  occurs slash (domain bi) = false → occurs slash (id bi) = false →
  occurs slash (jobId j) = false →
  external_id c = Some (p_external_id (getChecksCreateParams bi j)) →
  is_for bi c j.
Proof.
  intros Hd Hb Hj Hc. eexists _, []. split; [exact Hc |].
  simpl. by apply split_external_id.
Qed.

(** A slash inside a field breaks the correspondence: the hard precondition
    of the wire format. *)
Example slash_in_domain_breaks_identity :
  isCheckForJob (mkBuildInfo "42" "a/b" "o" "r" "abc")
    (mkCheckRun
       (Some (p_external_id
                (getChecksCreateParams (mkBuildInfo "42" "a/b" "o" "r" "abc")
                   (job7 "started"))))
       "in_progress" "build" None 5)
    (job7 "started")
  = false.
Proof. reflexivity. Qed.

(** Array destructuring takes the first three pieces and ignores the rest. *)
Example trailing_pieces_ignored :
  isCheckForJob build42
    (mkCheckRun (Some "ci/42/7/extra") "in_progress" "build" None 5)
    (job7 "started")
  = true.
Proof. reflexivity. Qed.

(** When several fetched check runs are for one job, the first decides. *)
Example first_match_decides :
  outcome (checksToCreate
             (instance5
                (mkPaged (Returned [check7 "queued" None; check7 "in_progress" None]) [])
                (Returned 1%Z) (Returned None))
             [job7 "started"])
  = Returned [job7 "started"].
Proof. reflexivity. Qed.

(** Check runs of other applications are not part of the fetched collection. *)
Example foreign_checks_dropped :
  outcome (getExistingChecks
             (instance5
                (mkPaged
                   (Returned [mkCheckRun (Some "ci/42/7") "queued" "build" None 6])
                   [Returned [check7 "queued" None]])
                (Returned 1%Z) (Returned None)))
  = Returned [check7 "queued" None].
Proof. reflexivity. Qed.

(** ** More on the job-state tables *)

(** X1: [getStatus] yields one of the three check-run statuses and
    [getConclusion] one of the four conclusions, whatever the job. *)
Theorem tables_ranges (j : JobInfo) :
  getStatus j ∈ ["completed"; "in_progress"; "queued"]
  ∧ getConclusion j ∈ ["success"; "failure"; "cancelled"; "neutral"].
Proof.
  split.
  - unfold getStatus. destruct (includes _ _); [by left |].
    destruct (String.eqb _ _); [right; by left | do 2 right; by left].
  - unfold getConclusion. destruct (String.eqb _ "passed"); [by left |].
    destruct (_ && _); [right; by left |].
    destruct (String.eqb _ _); [do 2 right; by left | do 3 right; by left].
Qed.

Lemma getConclusion_cancelled (j : JobInfo) :
  getConclusion j = "cancelled" ↔ state j = "canceled".
Proof.
  split; [| by apply canceled_tables].
  unfold getConclusion. destruct (String.eqb _ "passed"); [discriminate |].
  destruct (_ && _); [discriminate |].
  destruct (String.eqb_spec (state j) "canceled"); [done | discriminate].
Qed.

(** X2: the status is ['completed'] exactly for the four finished states, and
    the conclusion is ['cancelled'] exactly for state canceled (so the early
    return of [addCompletionInfo] is taken for canceled jobs only). *)
Theorem completed_and_cancelled_iff (j : JobInfo) :
  (getStatus j = "completed" ↔
   state j = "passed" ∨ state j = "failed" ∨ state j = "errored"
   ∨ state j = "canceled")
  ∧ (getConclusion j = "cancelled" ↔ state j = "canceled").
Proof.
  split; [| apply getConclusion_cancelled].
  unfold getStatus.
  destruct (includes FINISHED_STATES (state j)) eqn:Hin.
  - apply includes_spec, list_elem_of_In in Hin. simpl in Hin.
    split; [intros _; intuition congruence | done].
  - split; [by destruct (String.eqb _ _) |].
    intros H. exfalso.
    assert (Hin' : includes FINISHED_STATES (state j) = true).
    { apply includes_spec, list_elem_of_In. simpl.
      destruct H as [-> | [-> | [-> | ->]]]; tauto. }
    congruence.
Qed.

(** X3: [ignoreFailure] matters for failed jobs only: two jobs in the same
    state other than failed get the same conclusion. *)
Theorem ignoreFailure_only_for_failed (j1 j2 : JobInfo) :
  state j1 = state j2 → state j1 ≠ "failed" →
  getConclusion j1 = getConclusion j2.
Proof.
  intros Hs Hf. unfold getConclusion. rewrite <- Hs.
  destruct (String.eqb_spec (state j1) "failed"); [contradiction | done].
Qed.

Lemma ignoreFailure_only_for_failed_witness :
  getConclusion (mkJobInfo "7" "build" "u" "errored" "t0" "t1" true)
  = getConclusion (mkJobInfo "8" "test" "v" "errored" "t2" "t3" false).
Proof.
  apply ignoreFailure_only_for_failed; [reflexivity | discriminate].
Defined.

(** ** More on the identity carried by [external_id] *)

Lemma split_aux_length (sep : Ascii.ascii) (s cur : string) :
  length (split_aux sep s cur) = S (count_sep sep s).
Proof.
  revert cur. induction s as [|c s IH]; intros cur; simpl; [done |].
  destruct (Ascii.eqb c sep); simpl; by rewrite IH.
Qed.

Lemma written_id_not_empty (d b j : string) :
  String.eqb (d +:+ "/" +:+ b +:+ "/" +:+ j) "" = false.
Proof. by destruct d. Qed.

(** X4: encode and decode.  A check run that carries the external id written
    by [getChecksCreateParams] for a build and a job whose domain, id and job
    id hold no slash is for exactly the jobs with that job id under a build
    with that domain and id. *)
Theorem external_id_round_trip (bi bi' : BuildInfo) (j j' : JobInfo)
    (c : CheckRun) :
  occurs slash (domain bi) = false → occurs slash (id bi) = false →
  occurs slash (jobId j) = false →
  external_id c = Some (p_external_id (getChecksCreateParams bi j)) →
  (isCheckForJob bi' c j' = true
   ↔ domain bi' = domain bi ∧ id bi' = id bi ∧ jobId j' = jobId j).
Proof.
  intros Hd Hb Hj Hc. unfold isCheckForJob. rewrite Hc. simpl.
  rewrite written_id_not_empty, split_external_id by done. simpl.
  rewrite !andb_true_iff, !String.eqb_eq. tauto.
Qed.

Lemma external_id_round_trip_witness :
  isCheckForJob build42
    (mkCheckRun (Some (p_external_id (getChecksCreateParams build42 (job7 "queued"))))
       "queued" "build" None 5)
    (job7 "passed")
  = true.
Proof.
  apply (external_id_round_trip build42 build42 (job7 "queued") (job7 "passed"));
    [reflexivity | reflexivity | reflexivity | reflexivity |].
  repeat split; reflexivity.
Defined.

(** X5: an external id with fewer than two slashes is for no job. *)
Theorem short_external_id_no_match (bi : BuildInfo) (c : CheckRun)
    (j : JobInfo) (s : string) :
  external_id c = Some s → count_sep slash s < 2 →
  isCheckForJob bi c j = false.
Proof.
  intros Hc Hcount. unfold isCheckForJob. rewrite Hc. simpl.
  destruct (String.eqb s ""); [done |].
  assert (Hlen : length (split slash s) < 3).
  { unfold split. rewrite split_aux_length. lia. }
  rewrite (proj2 (lookup_ge_None (split slash s) 2)) by lia.
  simpl. by rewrite andb_false_r.
Qed.

Lemma short_external_id_no_match_witness :
  isCheckForJob build42 (mkCheckRun (Some "ci/42") "queued" "build" None 5)
    (job7 "queued")
  = false.
Proof.
  apply (short_external_id_no_match build42 _ _ "ci/42"); [reflexivity |].
  simpl. lia.
Defined.

(** X6: a check run is for at most one job id, and the build and the job it
    is for have slash-free domain, id and job id: a job whose id holds a
    slash is matched by no check run at all. *)
Theorem isCheckForJob_functional (bi : BuildInfo) (c : CheckRun)
    (j1 j2 : JobInfo) :
  isCheckForJob bi c j1 = true →
  (isCheckForJob bi c j2 = true ↔ jobId j2 = jobId j1)
  ∧ occurs slash (domain bi) = false
  ∧ occurs slash (id bi) = false
  ∧ occurs slash (jobId j1) = false.
Proof.
  intros H1. pose proof H1 as Hfor. apply isCheckForJob_spec in Hfor.
  destruct Hfor as (s & rest & Hs & Hsplit). split; [split |].
  - intros H2. apply isCheckForJob_spec in H2 as (s' & rest' & Hs' & Hsplit').
    congruence.
  - intros Heq. apply isCheckForJob_spec. exists s, rest. by rewrite Heq.
  - repeat split; apply (split_pieces slash s); rewrite Hsplit.
    + by left.
    + right. by left.
    + do 2 right. by left.
Qed.

Lemma isCheckForJob_functional_witness :
  isCheckForJob build42 (check7 "queued" None)
    (mkJobInfo "8" "build" "u" "queued" "t0" "t1" false)
  = true
  ↔ "8" = "7".
Proof.
  apply (isCheckForJob_functional build42 (check7 "queued" None) (job7 "queued")
           (mkJobInfo "8" "build" "u" "queued" "t0" "t1" false)).
  reflexivity.
Defined.

(** ** More on the diff *)

Lemma filter_twice {A} (f : A → bool) (l : list A) :
  List.filter f (List.filter f l) = List.filter f l.
Proof.
  induction l as [|x l IH]; simpl; [done |].
  destruct (f x) eqn:Hx; simpl; [by rewrite Hx, IH | done].
Qed.

(** X7: the decision is taken job by job: the result for a concatenated
    input is the concatenation of the results for its parts. *)
Theorem checksToCreate_app (this : GitHub) (jobs1 jobs2 : list JobInfo) :
  ∃ created1 created2,
    outcome (checksToCreate this jobs1) = Returned created1
    ∧ outcome (checksToCreate this jobs2) = Returned created2
    ∧ outcome (checksToCreate this (jobs1 ++ jobs2))
      = Returned (created1 ++ created2).
Proof.
  destruct (getExistingChecks_returns this) as [existing Hex].
  eexists _, _. rewrite !(checksToCreate_outcome this _ existing Hex).
  split; [done |]. split; [done |]. by rewrite List.filter_app.
Qed.

(** X8: against an unchanged remote, running the diff on its own result
    returns that result again. *)
Theorem checksToCreate_idempotent (this : GitHub) (jobs created : list JobInfo) :
  outcome (checksToCreate this jobs) = Returned created →
  outcome (checksToCreate this created) = Returned created.
Proof.
  destruct (getExistingChecks_returns this) as [existing Hex].
  rewrite !(checksToCreate_outcome this _ existing Hex).
  intros [= <-]. by rewrite filter_twice.
Qed.

Lemma checksToCreate_idempotent_witness :
  outcome (checksToCreate
             (instance5 (mkPaged (Returned [check7 "in_progress" None]) [])
                (Returned 1%Z) (Returned None))
             [job7 "passed"])
  = Returned [job7 "passed"].
Proof.
  apply (checksToCreate_idempotent
           (instance5 (mkPaged (Returned [check7 "in_progress" None]) [])
              (Returned 1%Z) (Returned None))
           [job7 "started"; job7 "passed"]).
  reflexivity.
Defined.

Lemma own_checks_foreign (this : GitHub) (page : list CheckRun) :
  (∀ c, c ∈ page → app_id c ≠ appId this) → own_checks this page = [].
Proof.
  unfold own_checks. induction page as [|c l IH]; intros H; simpl; [done |].
  destruct (Z.eqb_spec (app_id c) (appId this)) as [Heq | _].
  - exfalso. by apply (H c); [left |].
  - apply IH. intros c' Hc'. apply H. by right.
Qed.

(** X9: check runs of other applications never suppress a create: when no
    served check run carries this application's id, every job of the input
    is returned. *)
Theorem foreign_checks_never_suppress (this : GitHub) (jobs : list JobInfo) :
  (∀ page c, Returned page ∈ answers (check_listing this) → c ∈ page →
             app_id c ≠ appId this) →
  outcome (checksToCreate this jobs) = Returned jobs.
Proof.
  intros Hforeign.
  assert (Hex : outcome (getExistingChecks this) = Returned []).
  { destruct (answers_served_or_thrown (answers (check_listing this)))
      as [(served & Hs) | (served & e & later & Hs)].
    - rewrite (getExistingChecks_served this served Hs). f_equal.
      assert (Hall : ∀ page, page ∈ served → own_checks this page = []).
      { intros page Hpage. apply own_checks_foreign. intros c.
        apply Hforeign. rewrite Hs. apply list_elem_of_fmap. by exists page. }
      clear Hs. induction served as [|page served IH]; simpl; [done |].
      rewrite Hall by left. apply IH. intros page' Hp. apply Hall. by right.
    - apply getExistingChecks_thrown. exists e. rewrite Hs.
      apply elem_of_app. right. by left. }
  rewrite (checksToCreate_outcome this jobs [] Hex). by rewrite filter_all.
Qed.

Lemma foreign_checks_never_suppress_witness :
  outcome (checksToCreate
             (instance5
                (mkPaged
                   (Returned [mkCheckRun (Some "ci/42/7") "queued" "build" None 6])
                   [])
                (Returned 1%Z) (Returned None))
             [job7 "queued"])
  = Returned [job7 "queued"].
Proof.
  apply foreign_checks_never_suppress.
  intros page c Hpage Hc. simpl in Hpage.
  apply list_elem_of_singleton in Hpage. injection Hpage as ->.
  apply list_elem_of_singleton in Hc as ->. discriminate.
Defined.

Lemma is_for_slash_free (bi : BuildInfo) (c : CheckRun) (j : JobInfo) :
  is_for bi c j → occurs slash (jobId j) = false.
Proof.
  intros (s & rest & _ & Hsplit).
  apply (split_pieces slash s). rewrite Hsplit. do 2 right. by left.
Qed.

(** X10: a job whose id holds a slash is never recognised in a fetched check
    run, so the diff returns it on every run, whatever the remote holds. *)
Theorem slashed_job_always_created (this : GitHub) (jobs : list JobInfo)
    (j : JobInfo) :
  occurs slash (jobId j) = true → j ∈ jobs →
  ∃ created, outcome (checksToCreate this jobs) = Returned created
             ∧ j ∈ created.
Proof.
  intros Hslash Hin.
  destruct (getExistingChecks_returns this) as [existing Hex].
  eexists. split; [by apply checksToCreate_outcome |].
  apply list_elem_of_In, filter_In. split; [by apply list_elem_of_In |].
  assert (Hfind : List.find (fun c => isCheckForJob (buildInfo this) c j) existing
                  = None).
  { apply find_no_match. intros c _ Hfor.
    apply is_for_slash_free in Hfor. congruence. }
  by rewrite Hfind.
Qed.

Lemma slashed_job_always_created_witness :
  ∃ created,
    outcome (checksToCreate
               (instance5
                  (mkPaged
                     (Returned [mkCheckRun (Some "ci/42/a/b") "queued" "build" None 5])
                     [])
                  (Returned 1%Z) (Returned None))
               [mkJobInfo "a/b" "build" "u" "queued" "t0" "t1" false])
    = Returned created
    ∧ mkJobInfo "a/b" "build" "u" "queued" "t0" "t1" false ∈ created.
Proof.
  apply slashed_job_always_created; [reflexivity | by left].
Defined.

(** X11: the decision for a job reads its job id, name and state only: two
    snapshots that agree on these are both returned or both left out. *)
Theorem checksToCreate_reads_id_name_state (this : GitHub) (j1 j2 : JobInfo) :
  jobId j1 = jobId j2 → name j1 = name j2 → state j1 = state j2 →
  ∃ b : bool,
    outcome (checksToCreate this [j1]) = Returned (if b then [j1] else [])
    ∧ outcome (checksToCreate this [j2]) = Returned (if b then [j2] else []).
Proof.
  intros Hid Hname Hstate.
  destruct (getExistingChecks_returns this) as [existing Hex].
  rewrite !(checksToCreate_outcome this _ existing Hex). simpl.
  assert (Hfind : List.find (fun c => isCheckForJob (buildInfo this) c j1) existing
                  = List.find (fun c => isCheckForJob (buildInfo this) c j2) existing).
  { clear Hex. induction existing as [|c l IH]; simpl; [done |].
    unfold isCheckForJob at 1 3. rewrite Hid.
    fold (isCheckForJob (buildInfo this) c j2). by rewrite IH. }
  assert (Hstatus : getStatus j1 = getStatus j2).
  { unfold getStatus. by rewrite Hstate. }
  rewrite Hfind. unfold needsCreate. rewrite Hname, Hstatus.
  exists (match List.find (fun c => isCheckForJob (buildInfo this) c j2) existing with
          | Some e => negb (String.eqb (getStatus j2) (cr_status e))
                      || negb (String.eqb (name j2) (cr_name e))
          | None => true
          end).
  by destruct (match List.find _ existing with Some _ => _ | None => _ end).
Qed.

Lemma checksToCreate_reads_id_name_state_witness :
  ∃ b : bool,
    outcome (checksToCreate
               (instance5 (mkPaged (Returned [check7 "completed" None]) [])
                  (Returned 1%Z) (Returned None))
               [mkJobInfo "7" "build" "u" "failed" "t0" "t1" false])
    = Returned (if b then [mkJobInfo "7" "build" "u" "failed" "t0" "t1" false] else [])
    ∧ outcome (checksToCreate
                 (instance5 (mkPaged (Returned [check7 "completed" None]) [])
                    (Returned 1%Z) (Returned None))
                 [mkJobInfo "7" "build" "v" "failed" "t2" "t3" true])
      = Returned (if b then [mkJobInfo "7" "build" "v" "failed" "t2" "t3" true] else []).
Proof.
  apply checksToCreate_reads_id_name_state; reflexivity.
Defined.

(** ** Traces of paging *)

Lemma sent_payloads_next_pages (n : nat) :
  sent_payloads (repeat GetNextPage n) = [].
Proof. induction n; simpl; done. Qed.

Lemma output_fetches_next_pages (n : nat) :
  output_fetches (repeat GetNextPage n) = [].
Proof. induction n; simpl; done. Qed.

Lemma logged_errors_next_pages (n : nat) :
  logged_errors (repeat GetNextPage n) = [].
Proof. induction n; simpl; done. Qed.

Lemma remote_reads_next_pages (n : nat) :
  remote_reads (repeat GetNextPage n) = repeat GetNextPage n.
Proof. induction n; simpl; by rewrite ?IHn. Qed.

Lemma next_page_requests_repeat (n : nat) :
  next_page_requests (repeat GetNextPage n) = n.
Proof. induction n; simpl; by rewrite ?IHn. Qed.

Lemma logged_errors_app (t1 t2 : list Event) :
  logged_errors (t1 ++ t2) = logged_errors t1 ++ logged_errors t2.
Proof.
  induction t1 as [|ev t1 IH]; simpl; [done |].
  destruct ev; simpl; by rewrite ?IH.
Qed.

Lemma remote_reads_app (t1 t2 : list Event) :
  remote_reads (t1 ++ t2) = remote_reads t1 ++ remote_reads t2.
Proof.
  induction t1 as [|ev t1 IH]; simpl; [done |].
  destruct ev; simpl; by rewrite ?IH.
Qed.

Lemma next_page_requests_app (t1 t2 : list Event) :
  next_page_requests (t1 ++ t2) = next_page_requests t1 + next_page_requests t2.
Proof.
  induction t1 as [|ev t1 IH]; simpl; [done |].
  destruct ev; simpl; by rewrite ?IH.
Qed.

(** Paging only ever adds next-page requests to the first request, and at
    most one per further page. *)
Lemma trace_paginate_next_shape {A B St} (l : list (Outcome A))
    (callback : A → St → list B * St * bool) (collection : list B) (s : St) :
  ∃ n, trace (paginate_next l callback collection s) = repeat GetNextPage n
       ∧ n ≤ length l.
Proof.
  revert collection s. induction l as [|[a|e] l IH]; intros collection s; simpl.
  - by exists 0.
  - destruct (callback a s) as [[items s'] stop]. destruct stop.
    + exists 1. split; [done | lia].
    + destruct (IH (collection ++ items) s') as (n & Hn & Hle).
      exists (S n). split; [| lia].
      destruct (paginate_next l callback _ s') as [r t]. simpl in *. by rewrite Hn.
  - exists 1. split; [done | lia].
Qed.

Lemma trace_paginate_shape {A B St} (request : Event) (pages : Paged A)
    (callback : A → St → list B * St * bool) (s : St) :
  ∃ n, trace (paginate request pages callback s) = request :: repeat GetNextPage n
       ∧ n ≤ length (next_pages pages).
Proof.
  unfold paginate. destruct pages as [[a|e] rest]; simpl.
  - destruct (callback a s) as [[items s'] stop]. destruct stop.
    + exists 0. split; [done | lia].
    + destruct (trace_paginate_next_shape rest callback items s') as (n & Hn & Hle).
      exists n. split; [| done].
      destruct (paginate_next rest callback _ s') as [r t]. simpl in *. by rewrite Hn.
  - exists 0. split; [done | lia].
Qed.

Lemma trace_paginate_next_collecting_served {A B} (f : A → list B)
    (served : list A) (collection : list B) :
  trace (paginate_next (map Returned served) (collecting f) collection tt)
  = repeat GetNextPage (length served).
Proof.
  revert collection. induction served as [|a l IH]; intros collection; simpl.
  - done.
  - specialize (IH (collection ++ f a)).
    destruct (paginate_next _ _ _ _) as [r t]. simpl in *. by rewrite IH.
Qed.

Lemma trace_paginate_next_collecting_thrown {A B} (f : A → list B)
    (served : list A) (e : Error) (later : list (Outcome A))
    (collection : list B) :
  trace (paginate_next (map Returned served ++ Thrown e :: later)
           (collecting f) collection tt)
  = repeat GetNextPage (S (length served)).
Proof.
  revert collection. induction served as [|a l IH]; intros collection; simpl.
  - done.
  - specialize (IH (collection ++ f a)).
    destruct (paginate_next _ _ _ _) as [r t]. simpl in *. by rewrite IH.
Qed.

Lemma trace_paginate_collecting_served {A B} (f : A → list B) (request : Event)
    (pages : Paged A) (served : list A) :
  answers pages = map Returned served →
  trace (paginate request pages (collecting f) tt)
  = request :: repeat GetNextPage (length (next_pages pages)).
Proof.
  unfold answers, paginate. destruct pages as [first rest]; simpl.
  destruct served as [|a l]; intros [= -> ->]; simpl.
  pose proof (trace_paginate_next_collecting_served f l (f a)) as H.
  destruct (paginate_next _ _ _ _) as [r t]. simpl in *.
  by rewrite H, length_map.
Qed.

Lemma trace_paginate_collecting_thrown {A B} (f : A → list B) (request : Event)
    (pages : Paged A) (served : list A) (e : Error) (later : list (Outcome A)) :
  answers pages = map Returned served ++ Thrown e :: later →
  trace (paginate request pages (collecting f) tt)
  = request :: repeat GetNextPage (length served).
Proof.
  unfold answers, paginate. destruct pages as [first rest]; simpl.
  destruct served as [|a l]; intros [= -> ->]; simpl; [done |].
  pose proof (trace_paginate_next_collecting_thrown f l e later (f a)) as H.
  destruct (paginate_next _ _ _ _) as [r t]. simpl in *. by rewrite H.
Qed.

(** The trace of [getExistingChecks] around its paging. *)
Lemma getExistingChecks_trace (this : GitHub) :
  let paging :=
    paginate
      (ChecksListForRef (owner (buildInfo this)) 100 (headSha (buildInfo this))
         (repo (buildInfo this)))
      (check_listing this) (collecting (own_checks this)) tt in
  trace (getExistingChecks this)
  = LogDebug ("Fetching existing checks for build " +:+ id (buildInfo this)) None
    :: trace paging
    ++ match outcome paging with
       | Returned fetched =>
           [LogDebug ("Fetched " +:+ toString (Z.of_nat (length (fst fetched)))
                      +:+ " existing checks for build " +:+ id (buildInfo this))
              None]
       | Thrown e =>
           [LogError e ("Error occurred fetching existing checks for build "
                        +:+ id (buildInfo this))]
       end.
Proof.
  cbv zeta. unfold getExistingChecks, check_listing, own_checks, collecting.
  destruct (paginate _ _ _ _) as [[a|e] t]; simpl; by rewrite ?app_nil_r.
Qed.

(** ** More on [getExistingChecks] *)

Lemma elem_of_own_checks (this : GitHub) (page : list CheckRun) (c : CheckRun) :
  c ∈ own_checks this page ↔ c ∈ page ∧ app_id c = appId this.
Proof.
  unfold own_checks. rewrite !list_elem_of_In, filter_In, Z.eqb_eq. done.
Qed.

Lemma elem_of_concat_own (this : GitHub) (served : list (list CheckRun))
    (c : CheckRun) :
  c ∈ concat (map (own_checks this) served)
  ↔ app_id c = appId this ∧ ∃ page, page ∈ served ∧ c ∈ page.
Proof.
  induction served as [|page served IH]; simpl.
  - split; [intros H; inversion H |]. intros (_ & page & H & _). inversion H.
  - rewrite elem_of_app, elem_of_own_checks, IH. split.
    + intros [[Hc Happ] | (Happ & page' & Hp & Hc)].
      * split; [done |]. exists page. split; [by left | done].
      * split; [done |]. exists page'. split; [by right | done].
    + intros (Happ & page' & Hp & Hc).
      apply elem_of_cons in Hp as [-> | Hp]; [by left |].
      right. split; [done |]. by exists page'.
Qed.

(** X12: [getExistingChecks] returns check runs of this application only;
    when every page is served it returns all of them, from all pages, and
    nothing else. *)
Theorem getExistingChecks_own (this : GitHub) :
  ∃ existing,
    outcome (getExistingChecks this) = Returned existing
    ∧ (∀ c, c ∈ existing → app_id c = appId this)
    ∧ ∀ served,
        answers (check_listing this) = map Returned served →
        ∀ c, c ∈ existing
             ↔ app_id c = appId this ∧ ∃ page, page ∈ served ∧ c ∈ page.
Proof.
  destruct (answers_served_or_thrown (answers (check_listing this)))
    as [(served & Hs) | (served & e & later & Hs)].
  - exists (concat (map (own_checks this) served)).
    split; [by apply getExistingChecks_served |]. split.
    + intros c Hc. by apply elem_of_concat_own in Hc as [? _].
    + intros served' Hs' c. rewrite Hs in Hs'.
      assert (served' = served) as ->.
      { clear -Hs'. revert served' Hs'.
        induction served as [|a l IH]; intros [|a' l'] H; simplify_eq/=; [done |].
        f_equal. by apply IH. }
      apply elem_of_concat_own.
  - exists []. split.
    + apply getExistingChecks_thrown. exists e. rewrite Hs.
      apply elem_of_app. right. by left.
    + split; [intros c Hc; inversion Hc |].
      intros served' Hs'. exfalso. rewrite Hs in Hs'.
      assert (Hin : Thrown e ∈ map Returned served').
      { rewrite <- Hs'. apply elem_of_app. right. by left. }
      apply list_elem_of_fmap in Hin as (? & ? & _). discriminate.
Qed.

(** X13: when every page is served, [getExistingChecks] requests every page:
    one listing request with page size 100 and one next-page request per
    further page, and logs no error. *)
Theorem getExistingChecks_requests_all (this : GitHub)
    (served : list (list CheckRun)) :
  answers (check_listing this) = map Returned served →
  remote_reads (trace (getExistingChecks this))
  = ChecksListForRef (owner (buildInfo this)) 100 (headSha (buildInfo this))
      (repo (buildInfo this))
    :: repeat GetNextPage (length (next_pages (check_listing this)))
  ∧ logged_errors (trace (getExistingChecks this)) = [].
Proof.
  intros Hs. rewrite getExistingChecks_trace. cbv zeta.
  rewrite (trace_paginate_collecting_served _ _ _ served Hs).
  rewrite (paginate_served _ _ _ served Hs). simpl.
  rewrite remote_reads_app, logged_errors_app, remote_reads_next_pages,
    logged_errors_next_pages. simpl. by rewrite app_nil_r.
Qed.

Lemma getExistingChecks_requests_all_witness :
  remote_reads
    (trace (getExistingChecks
              (instance5
                 (mkPaged (Returned [check7 "queued" None])
                    [Returned []; Returned [check7 "completed" None]])
                 (Returned 1%Z) (Returned None))))
  = [ChecksListForRef "o" 100 "abc" "r"; GetNextPage; GetNextPage].
Proof.
  apply (getExistingChecks_requests_all
           (instance5
              (mkPaged (Returned [check7 "queued" None])
                 [Returned []; Returned [check7 "completed" None]])
              (Returned 1%Z) (Returned None))
           [[check7 "queued" None]; []; [check7 "completed" None]]).
  reflexivity.
Defined.

(** X14: when a page request fails, [getExistingChecks] stops there: the
    pages after the failing one are never requested, nothing is retried, the
    error that was thrown is logged once with the build id, and the check
    runs of the pages served before are dropped. *)
Theorem getExistingChecks_stops_at_failure (this : GitHub)
    (served : list (list CheckRun)) (e : Error)
    (later : list (Outcome (list CheckRun))) :
  answers (check_listing this) = map Returned served ++ Thrown e :: later →
  remote_reads (trace (getExistingChecks this))
  = ChecksListForRef (owner (buildInfo this)) 100 (headSha (buildInfo this))
      (repo (buildInfo this))
    :: repeat GetNextPage (length served)
  ∧ logged_errors (trace (getExistingChecks this))
    = [(e, "Error occurred fetching existing checks for build "
           +:+ id (buildInfo this))]
  ∧ outcome (getExistingChecks this) = Returned [].
Proof.
  intros Hs. rewrite getExistingChecks_trace. cbv zeta.
  rewrite (trace_paginate_collecting_thrown _ _ _ served e later Hs).
  rewrite (paginate_thrown _ _ _ served e later Hs). simpl.
  rewrite remote_reads_app, logged_errors_app, remote_reads_next_pages,
    logged_errors_next_pages. simpl. rewrite app_nil_r.
  split; [done |]. split; [done |].
  apply getExistingChecks_thrown. exists e. rewrite Hs.
  apply elem_of_app. right. by left.
Qed.

Lemma getExistingChecks_stops_at_failure_witness :
  remote_reads
    (trace (getExistingChecks
              (instance5
                 (mkPaged (Returned [check7 "queued" None])
                    [Thrown "rate limit"; Returned [check7 "completed" None]])
                 (Returned 1%Z) (Returned None))))
  = [ChecksListForRef "o" 100 "abc" "r"; GetNextPage]
  ∧ logged_errors
      (trace (getExistingChecks
                (instance5
                   (mkPaged (Returned [check7 "queued" None])
                      [Thrown "rate limit"; Returned [check7 "completed" None]])
                   (Returned 1%Z) (Returned None))))
    = [("rate limit", "Error occurred fetching existing checks for build 42")]
  ∧ outcome
      (getExistingChecks
         (instance5
            (mkPaged (Returned [check7 "queued" None])
               [Thrown "rate limit"; Returned [check7 "completed" None]])
            (Returned 1%Z) (Returned None)))
    = Returned [].
Proof.
  apply (getExistingChecks_stops_at_failure
           (instance5
              (mkPaged (Returned [check7 "queued" None])
                 [Thrown "rate limit"; Returned [check7 "completed" None]])
              (Returned 1%Z) (Returned None))
           [[check7 "queued" None]] "rate limit"
           [Returned [check7 "completed" None]]).
  reflexivity.
Defined.

(** X15: the diff only reads: a run of [checksToCreate] makes no
    [checks.create] call and no [getJobOutput] call, and its remote requests
    are the listing request followed by next-page requests. *)
Theorem checksToCreate_only_reads (this : GitHub) (jobs : list JobInfo) :
  sent_payloads (trace (checksToCreate this jobs)) = []
  ∧ output_fetches (trace (checksToCreate this jobs)) = []
  ∧ ∃ n, remote_reads (trace (checksToCreate this jobs))
         = ChecksListForRef (owner (buildInfo this)) 100
             (headSha (buildInfo this)) (repo (buildInfo this))
           :: repeat GetNextPage n
         ∧ n ≤ length (next_pages (check_listing this)).
Proof.
  assert (Htrace : trace (checksToCreate this jobs) = trace (getExistingChecks this)).
  { unfold checksToCreate. rewrite trace_bind.
    destruct (getExistingChecks_returns this) as [existing ->]. simpl.
    by rewrite app_nil_r. }
  rewrite Htrace, getExistingChecks_trace. cbv zeta.
  destruct (trace_paginate_shape
              (ChecksListForRef (owner (buildInfo this)) 100
                 (headSha (buildInfo this)) (repo (buildInfo this)))
              (check_listing this) (collecting (own_checks this)) tt)
    as (n & -> & Hn).
  simpl. rewrite sent_payloads_app, output_fetches_app, remote_reads_app,
    sent_payloads_next_pages, output_fetches_next_pages, remote_reads_next_pages.
  destruct (outcome (paginate _ _ _ _)) as [fetched | e]; simpl;
    (split; [done |]); (split; [done |]); exists n; by rewrite app_nil_r.
Qed.

(** ** More on [createCheck] *)

Lemma prepared_payload_unfinished (this : GitHub) (j : JobInfo) :
  getStatus j ≠ "completed" →
  prepared_payload this j
  = (Returned (getChecksCreateParams (buildInfo this) j), []).
Proof.
  intros Hc. unfold prepared_payload.
  by destruct (String.eqb_spec (getStatus j) "completed").
Qed.

Lemma prepared_payload_finished (this : GitHub) (j : JobInfo) :
  getStatus j = "completed" → state j ≠ "canceled" →
  let completed :=
    set_completion (getChecksCreateParams (buildInfo this) j)
      (getConclusion j) (finishedAt j) in
  prepared_payload this j
  = match getJobOutput this j with
    | Returned (Some o) => (Returned (set_output completed o), [GetJobOutput j])
    | Returned None => (Returned completed, [GetJobOutput j])
    | Thrown e =>
        (Returned completed,
         [GetJobOutput j;
          LogError e ("Error occurred while getting job output for job "
                      +:+ jobId j +:+ ", output will be skipped")])
    end.
Proof.
  intros Hc Hn. unfold prepared_payload. rewrite Hc. simpl.
  rewrite addCompletionInfo_run. cbv zeta.
  destruct (String.eqb_spec (getConclusion j) "cancelled") as [Hcon | _]; [| done].
  by apply getConclusion_cancelled in Hcon.
Qed.

(** The events of [createCheck] after the payload is prepared hold no output
    fetch and no remote read. *)
Lemma createCheck_trace (this : GitHub) (j : JobInfo)
    (payload : ChecksCreateParams) (t : list Event) :
  prepared_payload this j = (Returned payload, t) →
  ∃ t', trace (createCheck this j) = t ++ t'
        ∧ sent_payloads t' = [payload]
        ∧ output_fetches t' = []
        ∧ remote_reads t' = []
        ∧ logged_errors t'
          = match checks_create (client this) payload with
            | Returned _ => []
            | Thrown e => [(e, "Error occurred creating check for job " +:+ jobId j)]
            end.
Proof.
  intros H. rewrite (createCheck_run this j payload t H).
  destruct (checks_create (client this) payload); eexists; (split; [done |]); done.
Qed.

(** X16: for a finished job that is not canceled, [createCheck] invokes
    [getJobOutput] exactly once, for that job; the payload it sends carries
    the derived conclusion, the finish time, and the output exactly when
    [getJobOutput] returned one. *)
Theorem createCheck_finished (this : GitHub) (j : JobInfo) :
  getStatus j = "completed" → state j ≠ "canceled" →
  output_fetches (trace (createCheck this j)) = [j]
  ∧ ∃ payload,
      sent_payloads (trace (createCheck this j)) = [payload]
      ∧ p_conclusion payload = Some (getConclusion j)
      ∧ p_completed_at payload = Some (finishedAt j)
      ∧ p_output payload
        = match getJobOutput this j with
          | Returned output => output
          | Thrown _ => None
          end.
Proof.
  intros Hc Hn. pose proof (prepared_payload_finished this j Hc Hn) as Hprep.
  cbv zeta in Hprep.
  destruct (getJobOutput this j) as [[o|]|e];
    destruct (createCheck_trace this j _ _ Hprep) as (t' & -> & Hsent & Hout & _);
    rewrite output_fetches_app, sent_payloads_app, Hsent, Hout; simpl;
    (split; [done |]); eexists; (split; [done |]); done.
Qed.

Lemma createCheck_finished_witness :
  output_fetches
    (trace (createCheck
              (instance5 (mkPaged (Returned []) []) (Returned 99%Z)
                 (Returned (Some (mkJobOutput "title" "summary" None))))
              (job7 "errored")))
  = [job7 "errored"].
Proof.
  apply (createCheck_finished
           (instance5 (mkPaged (Returned []) []) (Returned 99%Z)
              (Returned (Some (mkJobOutput "title" "summary" None))))
           (job7 "errored")); [reflexivity | discriminate].
Defined.

(** X17: a failing [getJobOutput] never blocks the creation: the error is
    logged with the job id, the payload is sent without output, and the
    result of [createCheck] is the one the create call gives: undefined when
    it fails, a string when it succeeds, the identifier's decimal digits for
    an identifier that is a safe integer. *)
Theorem createCheck_output_failure (this : GitHub) (j : JobInfo) (e : Error) :
  getStatus j = "completed" → state j ≠ "canceled" →
  getJobOutput this j = Thrown e →
  let payload :=
    set_completion (getChecksCreateParams (buildInfo this) j)
      (getConclusion j) (finishedAt j) in
  sent_payloads (trace (createCheck this j)) = [payload]
  ∧ (e, "Error occurred while getting job output for job " +:+ jobId j
        +:+ ", output will be skipped")
    ∈ logged_errors (trace (createCheck this j))
  ∧ match checks_create (client this) payload with
    | Returned idn =>
        (∃ checkRunId, outcome (createCheck this j) = Returned (Some checkRunId))
        ∧ (safe_integer idn →
           outcome (createCheck this j) = Returned (Some (toString idn)))
    | Thrown _ => outcome (createCheck this j) = Returned None
    end.
Proof.
  intros Hc Hn He. pose proof (prepared_payload_finished this j Hc Hn) as Hprep.
  cbv zeta in *. rewrite He in Hprep.
  destruct (createCheck_trace this j _ _ Hprep) as (t' & Ht & Hsent & _).
  rewrite Ht, sent_payloads_app, logged_errors_app, Hsent. simpl.
  split; [done |]. split; [by left |].
  rewrite (createCheck_run this j _ _ Hprep).
  destruct (checks_create (client this) _); [| done].
  split; [by eexists | done].
Qed.

Lemma createCheck_output_failure_witness :
  outcome (createCheck
             (instance5 (mkPaged (Returned []) []) (Returned 99%Z)
                (Thrown "log unavailable"))
             (job7 "failed"))
  = Returned (Some "99").
Proof.
  destruct (createCheck_output_failure
              (instance5 (mkPaged (Returned []) []) (Returned 99%Z)
                 (Thrown "log unavailable"))
              (job7 "failed") "log unavailable")
    as (_ & _ & _ & H); [reflexivity | discriminate | reflexivity |].
  apply H. unfold safe_integer. reflexivity.
Defined.

(** X18: for a job that is not finished, [createCheck] never invokes
    [getJobOutput] and sends the base payload as [getChecksCreateParams]
    builds it, with no completion field. *)
Theorem createCheck_unfinished (this : GitHub) (j : JobInfo) :
  getStatus j ≠ "completed" →
  output_fetches (trace (createCheck this j)) = []
  ∧ sent_payloads (trace (createCheck this j))
    = [getChecksCreateParams (buildInfo this) j]
  ∧ logged_errors (trace (createCheck this j))
    = match checks_create (client this) (getChecksCreateParams (buildInfo this) j) with
      | Returned _ => []
      | Thrown e => [(e, "Error occurred creating check for job " +:+ jobId j)]
      end.
Proof.
  intros Hc. pose proof (prepared_payload_unfinished this j Hc) as Hprep.
  destruct (createCheck_trace this j _ _ Hprep) as (t' & -> & Hsent & Hout & _ & Hlog).
  simpl. by rewrite Hsent, Hout, Hlog.
Qed.

Lemma createCheck_unfinished_witness :
  sent_payloads
    (trace (createCheck
              (instance5 (mkPaged (Returned []) []) (Thrown "bad gateway")
                 (Returned None))
              (job7 "booting")))
  = [getChecksCreateParams build42 (job7 "booting")].
Proof.
  apply (createCheck_unfinished
           (instance5 (mkPaged (Returned []) []) (Thrown "bad gateway")
              (Returned None))
           (job7 "booting")).
  discriminate.
Defined.

(** X19: completing a payload leaves its base fields alone, and
    [createCheck] makes no remote read of its own: whatever the job, the
    payload sent agrees with [getChecksCreateParams] on the eight base
    fields, it carries a conclusion and a completion time exactly when its
    status is ['completed'], and the run requests no listing and no page. *)
Theorem createCheck_frame (this : GitHub) (j : JobInfo) :
  remote_reads (trace (createCheck this j)) = []
  ∧ ∃ payload,
      sent_payloads (trace (createCheck this j)) = [payload]
      ∧ base_fields payload
        = base_fields (getChecksCreateParams (buildInfo this) j)
      ∧ (p_status payload = "completed"
         ↔ p_conclusion payload = Some (getConclusion j)
           ∧ p_completed_at payload = Some (finishedAt j))
      ∧ (p_status payload ≠ "completed"
         ↔ p_conclusion payload = None ∧ p_completed_at payload = None
           ∧ p_output payload = None).
Proof.
  destruct (String.eqb_spec (getStatus j) "completed") as [Hc | Hc].
  - assert (Hprep : ∃ payload t,
              prepared_payload this j = (Returned payload, t)
              ∧ remote_reads t = []
              ∧ base_fields payload
                = base_fields (getChecksCreateParams (buildInfo this) j)
              ∧ p_conclusion payload = Some (getConclusion j)
              ∧ p_completed_at payload = Some (finishedAt j)).
    { unfold prepared_payload. rewrite Hc. simpl. rewrite addCompletionInfo_run.
      cbv zeta. destruct (String.eqb _ "cancelled"); [by eexists _, _ |].
      destruct (getJobOutput this j) as [[o|]|e]; by eexists _, _. }
    destruct Hprep as (payload & t & Hprep & Hreads & Hbase & Hcon & Hat).
    destruct (createCheck_trace this j _ _ Hprep) as (t' & -> & Hsent & _ & Hr & _).
    rewrite remote_reads_app, Hreads, Hr. split; [done |].
    exists payload. rewrite sent_payloads_app.
    assert (Hnone : sent_payloads t = []).
    { destruct (prepared_payload_returns this j) as (p' & t0 & Hp' & Ht0 & _).
      congruence. }
    rewrite Hnone, Hsent. split; [done |]. split; [done |].
    assert (Hst : p_status payload = "completed").
    { unfold base_fields in Hbase. simplify_eq/=. congruence. }
    split; [done |]. split; [done |]. intros (Hcon' & _). congruence.
  - pose proof (prepared_payload_unfinished this j Hc) as Hprep.
    destruct (createCheck_trace this j _ _ Hprep) as (t' & -> & Hsent & _ & Hr & _).
    simpl. rewrite Hr, Hsent. split; [done |].
    eexists. split; [done |]. split; [done |]. simpl.
    split; [split; [done | intros [[=] _]] | done].
Qed.

(** ** [createCheck] followed by [checksToCreate] *)

Lemma prepared_payload_base (this : GitHub) (j : JobInfo)
    (payload : ChecksCreateParams) (t : list Event) :
  prepared_payload this j = (Returned payload, t) →
  base_fields payload = base_fields (getChecksCreateParams (buildInfo this) j).
Proof.
  unfold prepared_payload.
  destruct (String.eqb (getStatus j) "completed"); [| by intros [= <- _]].
  rewrite addCompletionInfo_run. cbv zeta.
  destruct (String.eqb _ "cancelled"); [by intros [= <- _] |].
  destruct (getJobOutput this j) as [[o|]|e]; by intros [= <- _].
Qed.

Lemma sent_payload_base (this : GitHub) (j : JobInfo)
    (payload : ChecksCreateParams) :
  sent_payloads (trace (createCheck this j)) = [payload] →
  p_external_id payload = p_external_id (getChecksCreateParams (buildInfo this) j)
  ∧ p_status payload = getStatus j
  ∧ p_name payload = name j.
Proof.
  destruct (prepared_payload_returns this j) as (p' & t & Hprep & Ht & _).
  rewrite (createCheck_sends this j p' t Hprep Ht). intros [= <-].
  pose proof (prepared_payload_base this j p' t Hprep) as Hbase.
  unfold base_fields in Hbase. by simplify_eq/=.
Qed.

Lemma find_skip_prefix {A} (f : A → bool) (pre post : list A) (x : A) :
  (∀ y, y ∈ pre → f y = false) → f x = true →
  List.find f (pre ++ x :: post) = Some x.
Proof.
  intros Hpre Hx. induction pre as [|y pre IH]; simpl; [by rewrite Hx |].
  rewrite (Hpre y) by left. apply IH. intros z Hz. apply Hpre. by right.
Qed.

(** X20: the two operations compose.  Let a check run reflect the payload
    that [createCheck] sent for a job (same external id, status and name),
    and let it be the first fetched check run for that job id.  Then a later
    snapshot of the job is left out by [checksToCreate] exactly when its
    derived status and its name are unchanged, and returned exactly when one
    of them changed.  The build's domain and id and the job id must hold no
    slash. *)
Theorem created_check_then_diff (this : GitHub) (j j' : JobInfo)
    (payload : ChecksCreateParams) (c : CheckRun) (pre post : list CheckRun) :
  occurs slash (domain (buildInfo this)) = false →
  occurs slash (id (buildInfo this)) = false →
  occurs slash (jobId j) = false →
  sent_payloads (trace (createCheck this j)) = [payload] →
  external_id c = Some (p_external_id payload) →
  cr_status c = p_status payload → cr_name c = p_name payload →
  outcome (getExistingChecks this) = Returned (pre ++ c :: post) →
  (∀ c', c' ∈ pre → isCheckForJob (buildInfo this) c' j' = false) →
  jobId j' = jobId j →
  (outcome (checksToCreate this [j']) = Returned []
   ↔ getStatus j' = getStatus j ∧ name j' = name j)
  ∧ (outcome (checksToCreate this [j']) = Returned [j']
     ↔ getStatus j' ≠ getStatus j ∨ name j' ≠ name j).
Proof.
  intros Hd Hb Hj Hsent Hext Hstatus Hname Hex Hpre Hid.
  destruct (sent_payload_base this j payload Hsent) as (Hpe & Hps & Hpn).
  assert (Hfor : isCheckForJob (buildInfo this) c j' = true).
  { apply isCheckForJob_spec.
    destruct (created_check_is_for (buildInfo this) c j Hd Hb Hj)
      as (s & rest & Hs & Hsplit); [congruence |].
    exists s, rest. by rewrite Hid. }
  rewrite (checksToCreate_outcome this [j'] _ Hex). simpl.
  rewrite (find_skip_prefix _ pre post c Hpre Hfor). simpl.
  rewrite Hstatus, Hname, Hps, Hpn.
  destruct (String.eqb_spec (getStatus j') (getStatus j)) as [Hs | Hs];
    destruct (String.eqb_spec (name j') (name j)) as [Hn | Hn]; simpl;
    (split; split; intros H; try done; try discriminate; intuition congruence).
Qed.

Lemma created_check_then_diff_witness :
  outcome (checksToCreate
             (instance5 (mkPaged (Returned [check7 "in_progress" None]) [])
                (Returned 99%Z) (Returned None))
             [job7 "passed"])
  = Returned [job7 "passed"]
  ↔ getStatus (job7 "passed") ≠ getStatus (job7 "started")
    ∨ name (job7 "passed") ≠ name (job7 "started").
Proof.
  apply (created_check_then_diff
           (instance5 (mkPaged (Returned [check7 "in_progress" None]) [])
              (Returned 99%Z) (Returned None))
           (job7 "started") (job7 "passed")
           (getChecksCreateParams build42 (job7 "started"))
           (check7 "in_progress" None) [] []);
    try reflexivity.
  intros c' Hc'. inversion Hc'.
Defined.

(** ** More on [getLatestTravisStatus] *)

Lemma clean_page (page : list Status) :
  (∀ st, st ∈ page → ¬ is_travis st) → travis_callback page None = ([], None, false).
Proof.
  intros H. unfold travis_callback. by rewrite (proj2 (scan_page_none page) H).
Qed.

(** Paging with the Travis callback stops at the first answer that is an
    error or a page with a Travis status. *)
Lemma trace_paginate_next_travis_stop (served : list (list Status))
    (a : Outcome (list Status)) (later : list (Outcome (list Status)))
    (collection : list unit) :
  (∀ page st, page ∈ served → st ∈ page → ¬ is_travis st) →
  match a with
  | Returned page => scan_page page ≠ None
  | Thrown _ => True
  end →
  trace (paginate_next (map Returned served ++ a :: later) travis_callback
           collection None)
  = repeat GetNextPage (S (length served)).
Proof.
  intros Hclean Ha. revert collection.
  induction served as [|page served IH]; intros collection; simpl.
  - destruct a as [page | e]; [| done]. unfold travis_callback.
    by destruct (scan_page page).
  - rewrite clean_page by (intros st; apply Hclean; by left).
    specialize (IH (λ p st Hp, Hclean p st (list_elem_of_further _ _ _ Hp))
                  (collection ++ [])).
    destruct (paginate_next _ _ _ _) as [r t]. simpl in *. by rewrite IH.
Qed.

Lemma trace_paginate_next_travis_none (served : list (list Status))
    (collection : list unit) :
  (∀ page st, page ∈ served → st ∈ page → ¬ is_travis st) →
  trace (paginate_next (map Returned served) travis_callback collection None)
  = repeat GetNextPage (length served).
Proof.
  intros Hclean. revert collection.
  induction served as [|page served IH]; intros collection; simpl; [done |].
  rewrite clean_page by (intros st; apply Hclean; by left).
  specialize (IH (λ p st Hp, Hclean p st (list_elem_of_further _ _ _ Hp))
                (collection ++ [])).
  destruct (paginate_next _ _ _ _) as [r t]. simpl in *. by rewrite IH.
Qed.

Lemma trace_paginate_travis_stop (request : Event) (pages : Paged (list Status))
    (served : list (list Status)) (a : Outcome (list Status))
    (later : list (Outcome (list Status))) :
  answers pages = map Returned served ++ a :: later →
  (∀ page st, page ∈ served → st ∈ page → ¬ is_travis st) →
  match a with
  | Returned page => scan_page page ≠ None
  | Thrown _ => True
  end →
  trace (paginate request pages travis_callback None)
  = request :: repeat GetNextPage (length served).
Proof.
  unfold answers, paginate. destruct pages as [first rest]; simpl.
  destruct served as [|page served]; intros [= -> ->] Hclean Ha; simpl.
  - destruct a as [page | e]; [| done]. unfold travis_callback.
    by destruct (scan_page page).
  - rewrite clean_page by (intros st; apply Hclean; by left).
    pose proof (trace_paginate_next_travis_stop served a later []
                  (λ p st Hp, Hclean p st (list_elem_of_further _ _ _ Hp)) Ha) as H.
    destruct (paginate_next _ _ _ _) as [r t]. simpl in *. by rewrite H.
Qed.

Lemma trace_paginate_travis_none (request : Event) (pages : Paged (list Status))
    (served : list (list Status)) :
  answers pages = map Returned served →
  (∀ page st, page ∈ served → st ∈ page → ¬ is_travis st) →
  trace (paginate request pages travis_callback None)
  = request :: repeat GetNextPage (length (next_pages pages)).
Proof.
  unfold answers, paginate. destruct pages as [first rest]; simpl.
  destruct served as [|page served]; intros [= -> ->] Hclean; simpl.
  rewrite clean_page by (intros st; apply Hclean; by left).
  pose proof (trace_paginate_next_travis_none served []
                (λ p st Hp, Hclean p st (list_elem_of_further _ _ _ Hp))) as H.
  destruct (paginate_next _ _ _ _) as [r t]. simpl in *.
  by rewrite H, length_map.
Qed.

(** The trace of [getLatestTravisStatus] around its paging. *)
Lemma getLatestTravisStatus_trace (github : GitHubAPI) (ic : IssueComment) :
  let msg :=
    "Error occurred fetching latest Travis status for PR "
    +:+ toString (issue_number ic) +:+ " in " +:+ full_name (repository ic) in
  trace (getLatestTravisStatus github ic)
  = PullRequestsGet (issue_number ic) (owner_login (repository ic))
      (repo_name (repository ic))
    :: match fetched_pr github ic with
       | Thrown e => [LogError e msg]
       | Returned pr =>
           match head pr with
           | None => []
           | Some h =>
               let paging :=
                 paginate
                   (ReposGetStatuses (owner_login (repository ic)) 100 (sha h)
                      (repo_name (repository ic)))
                   (status_listing github ic h) travis_callback None in
               trace paging
               ++ match outcome paging with
                  | Returned _ => []
                  | Thrown e => [LogError e msg]
                  end
           end
       end.
Proof.
  cbv zeta. unfold getLatestTravisStatus, fetched_pr, status_listing.
  destruct (pullRequests_get _ _ _ _) as [[[h|]] | e]; simpl; [| done | done].
  destruct (paginate _ _ _ _) as [[[coll [st|]] | e] t]; simpl;
    by rewrite ?app_nil_r.
Qed.

(** X21: paging stops at the first match.  When the page holding the first
    Travis status comes after [k] served pages without one, the run makes
    the pull-request request, the status request with page size 100 and [k]
    next-page requests, and nothing else: later pages are never requested
    and nothing is logged. *)
Theorem getLatestTravisStatus_short_circuit (github : GitHubAPI)
    (ic : IssueComment) (h : PullRequestHead) (served : list (list Status))
    (page : list Status) (st : Status) (later : list (Outcome (list Status))) :
  fetched_pr github ic = Returned (mkPullRequest (Some h)) →
  answers (status_listing github ic h)
  = map Returned served ++ Returned page :: later →
  (∀ page' st', page' ∈ served → st' ∈ page' → ¬ is_travis st') →
  st ∈ page → is_travis st →
  trace (getLatestTravisStatus github ic)
  = PullRequestsGet (issue_number ic) (owner_login (repository ic))
      (repo_name (repository ic))
    :: ReposGetStatuses (owner_login (repository ic)) 100 (sha h)
         (repo_name (repository ic))
    :: repeat GetNextPage (length served).
Proof.
  intros Hpr Hans Hclean Hin Hst.
  assert (Hpage : scan_page page ≠ None).
  { intros Hnone. by apply (proj1 (scan_page_none page) Hnone st). }
  rewrite getLatestTravisStatus_trace. cbv zeta. rewrite Hpr. simpl.
  pose proof (trace_paginate_travis_stop
                (ReposGetStatuses (owner_login (repository ic)) 100 (sha h)
                   (repo_name (repository ic)))
                _ served (Returned page) later Hans Hclean Hpage) as Htrace.
  pose proof (paginate_travis
                (ReposGetStatuses (owner_login (repository ic)) 100 (sha h)
                   (repo_name (repository ic)))
                (status_listing github ic h)) as Hout.
  rewrite Hans in Hout.
  assert (Hscan : ∃ st0, scan_answers (map Returned served ++ Returned page :: later)
                         = Returned (Some st0)).
  { clear -Hclean Hpage. induction served as [|p served IH]; simpl.
    - destruct (scan_page page) as [st0|]; [by exists st0 | done].
    - rewrite (proj2 (scan_page_none p)) by (intros st'; apply Hclean; by left).
      apply IH. intros p' st' Hp. apply Hclean. by right. }
  destruct Hscan as [st0 Hscan]. rewrite Hscan in Hout.
  rewrite Htrace.
  destruct (outcome (paginate _ _ _ _)) as [found | e]; [| discriminate].
  simpl. by rewrite app_nil_r.
Qed.

Lemma getLatestTravisStatus_short_circuit_witness :
  trace
    (getLatestTravisStatus
       (remote (Returned (mkPullRequest (Some (mkHead "abc"))))
          (mkPaged (Returned [mkStatus "codecov/patch" "u1"])
             [Returned [mkStatus travis_context "u2"];
              Returned [mkStatus travis_context "u3"];
              Thrown "never requested"])
          (mkPaged (Returned []) []) (Returned 1%Z))
       comment12)
  = [PullRequestsGet 12 "o" "r"; ReposGetStatuses "o" 100 "abc" "r"; GetNextPage].
Proof.
  apply (getLatestTravisStatus_short_circuit _ comment12 (mkHead "abc")
           [[mkStatus "codecov/patch" "u1"]]
           [mkStatus travis_context "u2"] (mkStatus travis_context "u2")
           [Returned [mkStatus travis_context "u3"]; Thrown "never requested"]).
  - reflexivity.
  - reflexivity.
  - intros page st Hp Hs. apply list_elem_of_singleton in Hp as ->.
    apply list_elem_of_singleton in Hs as ->. discriminate.
  - by left.
  - reflexivity.
Defined.

(** X22: a failing remote call is logged once, with the error that was
    thrown, the pull-request number (in decimal digits, for a number that is
    a safe integer) and the repository's full name, and nothing is requested
    after it: after a failing pull-request request no status is requested,
    and after a failing page request no further page is. *)
Theorem getLatestTravisStatus_logs_failure (github : GitHubAPI)
    (ic : IssueComment) (e : Error) :
  safe_integer (issue_number ic) →
  let msg :=
    "Error occurred fetching latest Travis status for PR "
    +:+ toString (issue_number ic) +:+ " in " +:+ full_name (repository ic) in
  let get :=
    PullRequestsGet (issue_number ic) (owner_login (repository ic))
      (repo_name (repository ic)) in
  (fetched_pr github ic = Thrown e →
   trace (getLatestTravisStatus github ic) = [get; LogError e msg])
  ∧ ∀ h served later,
      fetched_pr github ic = Returned (mkPullRequest (Some h)) →
      answers (status_listing github ic h)
      = map Returned served ++ Thrown e :: later →
      (∀ page st, page ∈ served → st ∈ page → ¬ is_travis st) →
      trace (getLatestTravisStatus github ic)
      = get
        :: ReposGetStatuses (owner_login (repository ic)) 100 (sha h)
             (repo_name (repository ic))
        :: repeat GetNextPage (length served) ++ [LogError e msg].
Proof.
  intros _. cbv zeta. split.
  - intros Hpr. pose proof (getLatestTravisStatus_trace github ic) as H.
    cbv zeta in H. by rewrite Hpr in H.
  - intros h served later Hpr Hans Hclean.
    rewrite getLatestTravisStatus_trace. cbv zeta. rewrite Hpr. simpl.
    rewrite (trace_paginate_travis_stop _ _ served (Thrown e) later Hans Hclean I).
    pose proof (paginate_travis
                  (ReposGetStatuses (owner_login (repository ic)) 100 (sha h)
                     (repo_name (repository ic)))
                  (status_listing github ic h)) as Hout.
    destruct (scan_answers_thrown (status_listing github ic h)) as [e' He'].
    { by exists served, e, later. }
    assert (e' = e) as ->.
    { rewrite Hans in He'. clear -He' Hclean.
      induction served as [|p served IH]; simpl in He'; [congruence |].
      rewrite (proj2 (scan_page_none p)) in He'
        by (intros st'; apply Hclean; by left).
      apply IH; [| done]. intros p' st' Hp. apply Hclean. by right. }
    rewrite He' in Hout.
    destruct (outcome (paginate _ _ _ _)) as [found | e0]; [discriminate |].
    simpl in Hout. by injection Hout as ->.
Qed.

Lemma getLatestTravisStatus_logs_failure_witness :
  trace
    (getLatestTravisStatus
       (remote (Thrown "not found") (mkPaged (Returned []) [])
          (mkPaged (Returned []) []) (Returned 1%Z))
       comment12)
  = [PullRequestsGet 12 "o" "r";
     LogError "not found"
       "Error occurred fetching latest Travis status for PR 12 in o/r"].
Proof.
  refine (proj1 (getLatestTravisStatus_logs_failure
                   (remote (Thrown "not found") (mkPaged (Returned []) [])
                      (mkPaged (Returned []) []) (Returned 1%Z))
                   comment12 "not found" _) _).
  - unfold safe_integer. reflexivity.
  - reflexivity.
Defined.

(** X23: for a pull request without head, the statuses are never requested
    and nothing is logged: the pull-request request is the whole run. *)
Theorem getLatestTravisStatus_no_head (github : GitHubAPI) (ic : IssueComment) :
  fetched_pr github ic = Returned (mkPullRequest None) →
  trace (getLatestTravisStatus github ic)
  = [PullRequestsGet (issue_number ic) (owner_login (repository ic))
       (repo_name (repository ic))].
Proof.
  intros Hpr. pose proof (getLatestTravisStatus_trace github ic) as H.
  cbv zeta in H. by rewrite Hpr in H.
Qed.

Lemma getLatestTravisStatus_no_head_witness :
  trace
    (getLatestTravisStatus
       (remote (Returned (mkPullRequest None))
          (mkPaged (Returned [mkStatus travis_context "u2"]) [])
          (mkPaged (Returned []) []) (Returned 1%Z))
       comment12)
  = [PullRequestsGet 12 "o" "r"].
Proof.
  apply getLatestTravisStatus_no_head. reflexivity.
Defined.

(** X24: what [getLatestTravisStatus] returns is real: a returned status
    info carries the repository of the event, the sha of the pull request's
    head, and the target URL of a status with the Travis context that the
    remote served, the first one in paging order. *)
Theorem getLatestTravisStatus_sound (github : GitHubAPI) (ic : IssueComment)
    (info : StatusInfo) :
  outcome (getLatestTravisStatus github ic) = Returned (Some info) →
  si_repository info = repository ic
  ∧ ∃ h st,
      fetched_pr github ic = Returned (mkPullRequest (Some h))
      ∧ si_sha info = sha h
      ∧ first_travis_status (status_listing github ic h) st
      ∧ si_target_url info = target_url st.
Proof.
  rewrite getLatestTravisStatus_outcome.
  destruct (fetched_pr github ic) as [[[h|]] | e]; cbn [head]; [| done | done].
  destruct (status_listing_cases (status_listing github ic h))
    as [Hno | [Hth | [st Hfirst]]].
  - by destruct (scan_answers_none _ Hno) as [-> | [e ->]].
  - by destruct (scan_answers_thrown _ Hth) as [e ->].
  - rewrite (scan_answers_first _ _ Hfirst). intros [= <-]. simpl.
    split; [done |]. by exists h, st.
Qed.

Lemma getLatestTravisStatus_sound_witness :
  si_repository (mkStatusInfo repo_o_r "abc" "u2") = repository comment12.
Proof.
  apply (getLatestTravisStatus_sound
           (remote (Returned (mkPullRequest (Some (mkHead "abc"))))
              (mkPaged (Returned [mkStatus "codecov/patch" "u1"])
                 [Returned [mkStatus travis_context "u2"]])
              (mkPaged (Returned []) []) (Returned 1%Z))
           comment12 (mkStatusInfo repo_o_r "abc" "u2")).
  reflexivity.
Defined.

(** X25: when every page is served and none holds a Travis status, every
    page is requested before the result is undefined, and nothing is
    logged. *)
Theorem getLatestTravisStatus_full_scan (github : GitHubAPI) (ic : IssueComment)
    (h : PullRequestHead) (served : list (list Status)) :
  fetched_pr github ic = Returned (mkPullRequest (Some h)) →
  answers (status_listing github ic h) = map Returned served →
  (∀ page st, page ∈ served → st ∈ page → ¬ is_travis st) →
  outcome (getLatestTravisStatus github ic) = Returned None
  ∧ trace (getLatestTravisStatus github ic)
    = PullRequestsGet (issue_number ic) (owner_login (repository ic))
        (repo_name (repository ic))
      :: ReposGetStatuses (owner_login (repository ic)) 100 (sha h)
           (repo_name (repository ic))
      :: repeat GetNextPage (length (next_pages (status_listing github ic h))).
Proof.
  intros Hpr Hans Hclean.
  assert (Hscan : scan_answers (answers (status_listing github ic h))
                  = Returned None).
  { rewrite Hans. clear -Hclean. induction served as [|p served IH]; simpl; [done |].
    rewrite (proj2 (scan_page_none p)) by (intros st'; apply Hclean; by left).
    apply IH. intros p' st' Hp. apply Hclean. by right. }
  split.
  - rewrite getLatestTravisStatus_outcome, Hpr. cbn [head]. by rewrite Hscan.
  - rewrite getLatestTravisStatus_trace. cbv zeta. rewrite Hpr. simpl.
    rewrite (trace_paginate_travis_none _ _ served Hans Hclean).
    pose proof (paginate_travis
                  (ReposGetStatuses (owner_login (repository ic)) 100 (sha h)
                     (repo_name (repository ic)))
                  (status_listing github ic h)) as Hout.
    rewrite Hscan in Hout.
    destruct (outcome (paginate _ _ _ _)) as [found | e]; [| discriminate].
    simpl. by rewrite app_nil_r.
Qed.

Lemma getLatestTravisStatus_full_scan_witness :
  outcome
    (getLatestTravisStatus
       (remote (Returned (mkPullRequest (Some (mkHead "abc"))))
          (mkPaged (Returned [mkStatus "codecov/patch" "u1"])
             [Returned []; Returned [mkStatus "ci/other" "u2"]])
          (mkPaged (Returned []) []) (Returned 1%Z))
       comment12)
  = Returned None.
Proof.
  apply (getLatestTravisStatus_full_scan _ comment12 (mkHead "abc")
           [[mkStatus "codecov/patch" "u1"]; []; [mkStatus "ci/other" "u2"]]).
  - reflexivity.
  - reflexivity.
  - intros page st Hp Hs.
    repeat (apply elem_of_cons in Hp as [-> | Hp]);
      [| inversion Hs | | inversion Hp];
      apply list_elem_of_singleton in Hs as ->; discriminate.
Defined.

(** X26: [getLatestTravisStatus] only reads: a run of it makes no
    [checks.create] call and no [getJobOutput] call and lists no check
    runs. *)
Theorem getLatestTravisStatus_only_reads (github : GitHubAPI)
    (ic : IssueComment) :
  sent_payloads (trace (getLatestTravisStatus github ic)) = []
  ∧ output_fetches (trace (getLatestTravisStatus github ic)) = []
  ∧ ∀ o n ref r,
      ChecksListForRef o n ref r ∉ trace (getLatestTravisStatus github ic).
Proof.
  rewrite getLatestTravisStatus_trace. cbv zeta.
  destruct (fetched_pr github ic) as [[[h|]] | e]; simpl.
  - destruct (trace_paginate_shape
                (ReposGetStatuses (owner_login (repository ic)) 100 (sha h)
                   (repo_name (repository ic)))
                (status_listing github ic h) travis_callback None)
      as (k & -> & _).
    simpl. rewrite sent_payloads_app, output_fetches_app,
      sent_payloads_next_pages, output_fetches_next_pages.
    split; [by destruct (outcome _) |]. split; [by destruct (outcome _) |].
    intros o n ref r Hin.
    apply elem_of_cons in Hin as [[=] | Hin].
    apply elem_of_cons in Hin as [[=] | Hin].
    apply elem_of_app in Hin as [Hin | Hin].
    + apply list_elem_of_In, repeat_spec in Hin. discriminate.
    + destruct (outcome _); [inversion Hin |].
      apply list_elem_of_singleton in Hin. discriminate.
  - split; [done |]. split; [done |]. intros o n ref r Hin.
    apply list_elem_of_singleton in Hin. discriminate.
  - split; [done |]. split; [done |]. intros o n ref r Hin.
    apply elem_of_cons in Hin as [[=] | Hin].
    apply list_elem_of_singleton in Hin. discriminate.
Qed.

(** ** [deleteComment] *)

(** X27: [deleteComment] never throws.  For a comment id and a pull-request
    number that are safe integers, it makes exactly one delete request, for
    the comment's id in decimal digits under the repository's owner login and
    name; when the request fails, the error is logged with the pull-request
    number and the repository's full name, and nothing else happens. *)
Theorem deleteComment_best_effort
    (issues_deleteComment : string → string → string → Outcome unit)
    (ic : IssueComment) :
  fst (deleteComment issues_deleteComment ic) = Returned tt
  ∧ (safe_integer (comment_id ic) → safe_integer (issue_number ic) →
     snd (deleteComment issues_deleteComment ic)
     = IssuesDeleteComment (toString (comment_id ic))
         (owner_login (repository ic)) (repo_name (repository ic))
       :: match issues_deleteComment (toString (comment_id ic))
                  (owner_login (repository ic)) (repo_name (repository ic)) with
          | Returned _ => []
          | Thrown e =>
              [CommentLogError e
                 ("Error occurred deleting rescan comment for PR "
                  +:+ toString (issue_number ic) +:+ " in "
                  +:+ full_name (repository ic))]
          end).
Proof.
  unfold deleteComment.
  by destruct (issues_deleteComment _ _ _) as [[] | e].
Qed.

Lemma deleteComment_best_effort_witness :
  snd (deleteComment (fun _ _ _ => Thrown "forbidden") comment12)
  = [IssuesDeleteComment "3" "o" "r";
     CommentLogError "forbidden"
       "Error occurred deleting rescan comment for PR 12 in o/r"].
Proof.
  apply (proj2 (deleteComment_best_effort (fun _ _ _ => Thrown "forbidden")
                  comment12)).
  - unfold safe_integer. reflexivity.
  - unfold safe_integer. reflexivity.
Defined.

Example deleteComment_failure :
  deleteComment (fun _ _ _ => Thrown "forbidden") comment12
  = (Returned tt,
     [IssuesDeleteComment "3" "o" "r";
      CommentLogError "forbidden"
        "Error occurred deleting rescan comment for PR 12 in o/r"]).
Proof. reflexivity. Qed.
